(** * Verification of [retryWithBackoff] (src/ai/src/utils/retry-helper.ts)

    A shallow embedding of the retry helper: the classification of an
    error by the text of its message, the regular expression that reads a
    retry hint out of the message, the delay arithmetic and the attempt
    loop, followed by the properties stated about them.

    Conventions of the embedding.
    - A JavaScript string is a [string]; the patterns the code looks for
      are ASCII, for which substring search and the regular expression are
      insensitive to how other characters are encoded.
    - The delays and the multiplier are JavaScript numbers, that is
      IEEE 754 double-precision values ([spec_float] at precision 53),
      with the operations of the language on them.  [maxRetries] and the
      attempt counter range over the integers ([Z]), on which doubles
      count exactly up to 2^53.
    - The wrapped operation is a state transformer on a world [W]; a pause
      also acts on the world.  Every call, notice and pause of a run is
      recorded in its list of events, and a run records the statement it
      left the function by.
    - The notice of line 64 is recorded by the values that fill it; the
      quoted head of the message is cut by characters of the [string],
      which are the UTF-16 units of the code for ASCII messages. *)

From Stdlib Require Import ZArith SpecFloat.
From Stdlib Require Import List String Ascii Bool Lia DecimalString.
From Equations Require Import Equations.
Import ListNotations.

Local Open Scope string_scope.

(** ** Numbers *)

Module Num.

(** A JavaScript number: a double, or a zero, an infinity or NaN. *)
Definition number : Type := spec_float.

Definition prec : Z := 53.
Definition emax : Z := 1024.

Definition NaN : number := S754_nan.

(** The number nearest to an integer (the integer itself up to 2^53). *)
Definition of_Z (z : Z) : number := binary_normalize prec emax z 0 false.

(** The number nearest to the fraction [p / q] of integers [p >= 0] and
    [q > 0], ties to even: the value of a decimal literal. *)
Definition of_ratio (p q : Z) : number :=
  match p, q with
  | Z0, Zpos _ => S754_zero false
  | Zpos p', Zpos q' =>
      SFdiv prec emax (S754_finite false p' 0) (S754_finite false q' 0)
  | _, _ => S754_nan
  end.

(** [x * y] *)
Definition mul (x y : number) : number := SFmul prec emax x y.

(** [x <= y] *)
Definition leb (x y : number) : bool := SFleb x y.

(** [Math.min(a, b)]: NaN when either is NaN, [-0] below [+0], and
    otherwise [b] when [b < a] and [a] when not. *)
Definition Math_min (a b : number) : number :=
  match a, b with
  | S754_nan, _ | _, S754_nan => S754_nan
  | S754_zero false, S754_zero true => b
  | _, _ => if SFltb b a then b else a
  end.

(** [Math.ceil(x)]: the least integer not below [x], [-0] for [x] in
    (-1, 0); zeros, infinities and NaN are left as they are, and so is a
    finite number whose exponent is not negative, an integer already. *)
Definition Math_ceil (x : number) : number :=
  match x with
  | S754_finite s m (Zneg k) =>
      let q := Z.shiftr (Zpos m) (Zpos k) in
      if s then binary_normalize prec emax (- q) 0 true
      else binary_normalize prec emax
             (if (Z.shiftl q (Zpos k) =? Zpos m)%Z then q else q + 1) 0 false
  | _ => x
  end.

End Num.

(** ** Strings and the regular expression *)

Module Str.

(** [s.includes(pat)]: [pat] occurs in [s] at some position. *)
Fixpoint includes (s pat : string) : bool :=
  if String.prefix pat s then true
  else match s with
       | EmptyString => false
       | String _ s' => includes s' pat
       end.

(** Propositional counterpart: [s] is [a ++ pat ++ b]. *)
Definition contains (s pat : string) : Prop :=
  exists a b, s = a ++ pat ++ b.

(** [\d] of a JavaScript regular expression: the ten ASCII digits. *)
Definition is_digit (c : ascii) : bool :=
  let n := nat_of_ascii c in (48 <=? n)%nat && (n <=? 57)%nat.

(** Canonicalization of a character under the [i] flag (without [u]):
    the upper-case mapping, which on one-byte characters moves exactly
    the letters [a]..[z]. *)
Definition canonicalize (c : ascii) : ascii :=
  let n := nat_of_ascii c in
  if (97 <=? n)%nat && (n <=? 122)%nat then ascii_of_nat (n - 32) else c.

(** ASCII lower-casing, character by character ([toLowerCase]). *)
Definition lower_char (c : ascii) : ascii :=
  let n := nat_of_ascii c in
  if (65 <=? n)%nat && (n <=? 90)%nat then ascii_of_nat (n + 32) else c.

Fixpoint toLowerCase (s : string) : string :=
  match s with
  | EmptyString => EmptyString
  | String c s' => String (lower_char c) (toLowerCase s')
  end.

(** Consume the literal [kw] at the head of [s], comparing characters
    after canonicalization; the rest of [s] on success. *)
Fixpoint match_literal_i (kw s : string) : option string :=
  match kw with
  | EmptyString => Some s
  | String k kw' =>
      match s with
      | EmptyString => None
      | String c s' =>
          if Ascii.eqb (canonicalize k) (canonicalize c)
          then match_literal_i kw' s' else None
      end
  end.

(** The longest run of digits at the head of [s], and what follows. *)
Fixpoint span_digits (s : string) : string * string :=
  match s with
  | EmptyString => (EmptyString, EmptyString)
  | String c s' =>
      if is_digit c
      then let (d, r) := span_digits s' in (String c d, r)
      else (EmptyString, s)
  end.

(** [(\d+(?:\.\d+)?)] at the head of [s]: both repetitions are greedy
    and nothing follows the group, so the capture is the longest run of
    digits, extended by a dot and the longest run of digits after it when
    that run is not empty. *)
Definition match_number (s : string) : option string :=
  let (int, rest) := span_digits s in
  match int with
  | EmptyString => None
  | String _ _ =>
      match rest with
      | String "."%char rest' =>
          let (frac, _) := span_digits rest' in
          match frac with
          | EmptyString => Some int
          | String _ _ => Some (int ++ "." ++ frac)
          end
      | _ => Some int
      end
  end.

(** [/retry in (\d+(?:\.\d+)?)/i] anchored at the head of [s]. *)
Definition match_here (s : string) : option string :=
  match match_literal_i "retry in " s with
  | Some rest => match_number rest
  | None => None
  end.

(** [s.match(/retry in (\d+(?:\.\d+)?)/i)]: the first capture group of
    the leftmost match, [None] when the expression matches nowhere. *)
Fixpoint match_retry_in (s : string) : option string :=
  match match_here s with
  | Some g => Some g
  | None =>
      match s with
      | EmptyString => None
      | String _ s' => match_retry_in s'
      end
  end.

(** The string consists of digits. *)
Fixpoint all_digits (s : string) : bool :=
  match s with
  | EmptyString => true
  | String c s' => is_digit c && all_digits s'
  end.

(** The string does not start with a digit. *)
Definition no_leading_digit (s : string) : Prop :=
  match s with
  | EmptyString => True
  | String c _ => is_digit c = false
  end.

(** A decimal numeral: digits, or digits, a dot and digits. *)
Definition decimal (g : string) : Prop :=
  exists int frac,
    int <> "" /\ all_digits int = true /\ all_digits frac = true
    /\ (g = int \/ (frac <> "" /\ g = int ++ "." ++ frac)).

(** The value of a string of digits read in base ten. *)
Fixpoint digits_value (acc : Z) (s : string) : Z :=
  match s with
  | EmptyString => acc
  | String c s' =>
      digits_value (10 * acc + Z.of_nat (nat_of_ascii c - 48)) s'
  end.

(** [parseFloat] on a string that opens with digits and dots only, as
    the captures of [match_retry_in] do: the number nearest to the
    decimal numeral at its head (digits, then possibly a dot and digits),
    NaN when there is no digit to read.  (Signs, exponents and leading
    blanks, which no capture has, are not read; past twenty significant
    digits the language allows an implementation a last-digit
    approximation, the nearest number is taken here.) *)
Definition parseFloat (s : string) : Num.number :=
  let (int, rest) := span_digits s in
  let frac := match rest with
              | String "."%char rest' => fst (span_digits rest')
              | _ => EmptyString
              end in
  match int ++ frac with
  | EmptyString => Num.NaN
  | String _ _ =>
      Num.of_ratio (digits_value 0 (int ++ frac))
                   (10 ^ Z.of_nat (String.length frac))
  end.

(** [String(n)] for an integer [n]. *)
Definition of_Z (n : Z) : string := NilZero.string_of_int (Z.to_int n).

(** [String(x)] for a string that may be [undefined]. *)
Definition of_optional (m : option string) : string :=
  match m with
  | Some s => s
  | None => "undefined"
  end.

End Str.

(** ** Errors and their classification *)

(** What the operation rejects with: an object, of which the helper
    reads the [message], which may be [undefined].  (A rejection with
    [null] or [undefined], on which reading [message] itself throws, is
    not modelled.) *)
Record Error : Type := mkError {
  name : string;
  message : option string
}.

(** [new Error(msg)] *)
Definition new_Error (msg : string) : Error :=
  {| name := "Error"; message := Some msg |}.

(** [error.message?.includes(pat)]: [undefined] (here [None]) when there is
    no message. *)
Definition message_includes (error : Error) (pat : string) : option bool :=
  option_map (fun m => Str.includes m pat) (message error).

(** [a || b] on values that are [true], [false] or [undefined]. *)
Definition js_or (a b : option bool) : option bool :=
  match a with
  | Some true => a
  | _ => b
  end.

(** Truthiness of such a value, as [!] and [if] read it. *)
Definition truthy (a : option bool) : bool :=
  match a with
  | Some true => true
  | _ => false
  end.

Definition isRateLimitError (error : Error) : option bool :=
  js_or (js_or (message_includes error "429")
               (message_includes error "quota"))
        (message_includes error "rate limit").

Definition isServerError (error : Error) : option bool :=
  js_or (message_includes error "500") (message_includes error "503").

(** The negation of the guard of line 40: the error is retried. *)
Definition isRetryable (error : Error) : bool :=
  negb (negb (truthy (isRateLimitError error))
        && negb (truthy (isServerError error))).

(** The classification as the specification words it: the three numeric
    codes found as they are, the two phrases found whatever their case. *)
Definition spec_isRetryable (error : Error) : bool :=
  match message error with
  | None => false
  | Some m =>
      Str.includes m "429" || Str.includes m "500" || Str.includes m "503"
      || Str.includes (Str.toLowerCase m) "quota"
      || Str.includes (Str.toLowerCase m) "rate limit"
  end.

(** ** Delays *)

(** [error.message?.match(/retry in (\d+(?:\.\d+)?)/i)], reduced to its
    first capture group. *)
Definition retryAfterMatch (error : Error) : option string :=
  match message error with
  | Some m => Str.match_retry_in m
  | None => None
  end.

(** Lines 53 to 62: the pause after a failed attempt, from the current
    [delay] and the error. *)
Definition waitTime (delay maxDelay : Num.number) (error : Error)
  : Num.number :=
  let waitTime :=
    match retryAfterMatch error with
    | Some group1 =>
        Num.Math_ceil (Num.mul (Str.parseFloat group1) (Num.of_Z 1000))
    | None => delay
    end in
  Num.Math_min waitTime maxDelay.

(** Line 73: the delay of the next attempt. *)
Definition nextDelay (delay backoffMultiplier maxDelay : Num.number)
  : Num.number :=
  Num.Math_min (Num.mul delay backoffMultiplier) maxDelay.

(** ** The executor *)

(** [RetryOptions]: every field may be left out. *)
Module RetryOptions.
Record t : Type := make {
  maxRetries : option Z;
  initialDelay : option Num.number;
  maxDelay : option Num.number;
  backoffMultiplier : option Num.number
}.

(** [{}] *)
Definition empty : t :=
  {| maxRetries := None; initialDelay := None;
     maxDelay := None; backoffMultiplier := None |}.
End RetryOptions.

(** A destructuring default: the value when present, the default when
    [undefined]. *)
Definition default {A : Type} (d : A) (o : option A) : A :=
  match o with
  | Some x => x
  | None => d
  end.

(** How a call of [retryWithBackoff] ends: the promise is fulfilled with a
    value or rejected with an error. *)
Inductive outcome (T : Type) : Type :=
| Returned (v : T)
| Threw (e : Error).
Arguments Returned {T} v.
Arguments Threw {T} e.

(** The statement a run leaves the function by. *)
Inductive exit_point : Type :=
| ReturnValue          (* line 29: return await fn() *)
| ThrowNonRetryable    (* line 42: throw error *)
| ThrowMaxRetries      (* line 47: throw new Error(`Max retries ...`) *)
| ThrowAfterLoop.      (* line 77: throw lastError || new Error(...) *)

(** What a run does that can be observed from outside, in order. *)
Inductive event (T : Type) : Type :=
| Called (r : T + Error)
    (* one invocation of [fn], with its value or its error *)
| Logged (attemptNo maxRetries : Z) (waitTime : Num.number)
         (excerpt : option string)
    (* the notice of line 64, by the values that fill its template *)
| Slept (ms : Num.number).
    (* the pause of line 70 *)
Arguments Called {T} r.
Arguments Logged {T} attemptNo maxRetries waitTime excerpt.
Arguments Slept {T} ms.

Record run (T W : Type) : Type := mkRun {
  events : list (event T);
  result : outcome T;
  exit_at : exit_point;
  world : W
}.
Arguments mkRun {T W} events result exit_at world.
Arguments events {T W} r.
Arguments result {T W} r.
Arguments exit_at {T W} r.
Arguments world {T W} r.

(** The run [r] preceded by the events [evs]. *)
Definition after {T W : Type} (evs : list (event T)) (r : run T W) : run T W :=
  mkRun (evs ++ events r) (result r) (exit_at r) (world r).

(** The invocations of the operation among the events, in order. *)
Fixpoint calls {T : Type} (evs : list (event T)) : list (T + Error) :=
  match evs with
  | [] => []
  | Called r :: evs' => r :: calls evs'
  | _ :: evs' => calls evs'
  end.

(** The pauses among the events, in order. *)
Fixpoint waits {T : Type} (evs : list (event T)) : list Num.number :=
  match evs with
  | [] => []
  | Slept ms :: evs' => ms :: waits evs'
  | _ :: evs' => waits evs'
  end.

Definition invocations {T W : Type} (r : run T W) : nat :=
  List.length (calls (events r)).

(** The message of the error of line 47. *)
Definition max_retries_message (maxRetries : Z) (error : Error) : string :=
  "Max retries (" ++ Str.of_Z maxRetries ++ ") reached. Last error: "
  ++ Str.of_optional (message error).

Section Executor.

Context {T W : Type}.

(** The wrapped operation: called in a world, it fulfils with a value or
    rejects with an error, and leaves a world. *)
Variable fn : W -> (T + Error) * W.

(** What a pause of the given length does to the world. *)
Variable sleep : Num.number -> W -> W.

Variables (maxRetries : Z) (maxDelay backoffMultiplier : Num.number).

(** The [for] loop of line 27 from the state it has on entering an
    iteration, and line 77 after it.  Each iteration moves [attempt] one
    step closer to [maxRetries]. *)
Equations? attempts (attempt : Z) (delay : Num.number)
  (lastError : option Error) (w : W) : run T W
  by wf (Z.to_nat (maxRetries + 1 - attempt)) lt :=
  attempts attempt delay lastError w with Z_le_dec attempt maxRetries => {
    | left _ =>
        match fn w with
        | (inl v, w1) => mkRun [Called (inl v)] (Returned v) ReturnValue w1
        | (inr error, w1) =>
            if negb (truthy (isRateLimitError error))
               && negb (truthy (isServerError error))
            then mkRun [Called (inr error)] (Threw error) ThrowNonRetryable w1
            else if (attempt =? maxRetries)%Z
            then mkRun [Called (inr error)]
                       (Threw (new_Error
                                 (max_retries_message maxRetries error)))
                       ThrowMaxRetries w1
            else
              let waitTime := waitTime delay maxDelay error in
              after [Called (inr error);
                     Logged (attempt + 1) maxRetries waitTime
                            (option_map (substring 0 100) (message error));
                     Slept waitTime]
                    (attempts (attempt + 1)
                              (nextDelay delay backoffMultiplier maxDelay)
                              (Some error) (sleep waitTime w1))
        end
    | right _ =>
        mkRun []
              (Threw (default (new_Error "Retry failed with unknown error")
                              lastError))
              ThrowAfterLoop w }.
Proof. lia. Qed.

End Executor.

(** [retryWithBackoff(fn, options)], with [options] possibly left out. *)
Definition retryWithBackoff {T W : Type} (fn : W -> (T + Error) * W)
  (sleep : Num.number -> W -> W) (options : option RetryOptions.t) (w : W)
  : run T W :=
  let options := default RetryOptions.empty options in
  let maxRetries := default 5%Z (RetryOptions.maxRetries options) in
  let initialDelay :=
    default (Num.of_Z 1000) (RetryOptions.initialDelay options) in
  let maxDelay :=
    default (Num.of_Z 60000) (RetryOptions.maxDelay options) in
  let backoffMultiplier :=
    default (Num.of_Z 2) (RetryOptions.backoffMultiplier options) in
  attempts fn sleep maxRetries maxDelay backoffMultiplier
           0 initialDelay None w.

(** The configuration a call runs under, field by field. *)
Definition maxRetries_of (options : option RetryOptions.t) : Z :=
  default 5%Z (RetryOptions.maxRetries (default RetryOptions.empty options)).

Definition initialDelay_of (options : option RetryOptions.t) : Num.number :=
  default (Num.of_Z 1000)
          (RetryOptions.initialDelay (default RetryOptions.empty options)).

Definition maxDelay_of (options : option RetryOptions.t) : Num.number :=
  default (Num.of_Z 60000)
          (RetryOptions.maxDelay (default RetryOptions.empty options)).

Definition backoffMultiplier_of (options : option RetryOptions.t)
  : Num.number :=
  default (Num.of_Z 2)
          (RetryOptions.backoffMultiplier (default RetryOptions.empty options)).

(** The delay state on entering the attempt of index [i], when the
    attempts before it were all retried: [i] applications of line 73 to
    [initialDelay]. *)
Definition delay_at (options : option RetryOptions.t) (i : nat)
  : Num.number :=
  Nat.iter i
    (fun delay =>
       nextDelay delay (backoffMultiplier_of options) (maxDelay_of options))
    (initialDelay_of options).

(** The message shows a retry hint: somewhere in it stand the words
    "retry in ", in any mix of cases, followed by a digit. *)
Definition has_retry_hint (m : string) : Prop :=
  exists pre kw d rest,
    m = pre ++ kw ++ String d rest
    /\ Str.toLowerCase kw = "retry in "
    /\ Str.is_digit d = true.

(** ** Sample operations

    Operations on which the statements below are exercised. *)

(** An operation that plays a script: each call consumes the head of the
    list that is left; with nothing left it rejects with [final]. *)
Definition scripted {T : Type} (final : Error) (w : list (T + Error))
  : (T + Error) * list (T + Error) :=
  match w with
  | [] => (inr final, [])
  | r :: w' => (r, w')
  end.

(** An operation that rejects every call with an error of message [msg]. *)
Definition always_fails (msg : string) (w : unit) : (nat + Error) * unit :=
  (inr (new_Error msg), w).

(** An operation that fulfils every call with [v]. *)
Definition always_succeeds (v : nat) (w : unit) : (nat + Error) * unit :=
  (inl v, w).

(** A pause that leaves the world as it is. *)
Definition idle {W : Type} (ms : Num.number) (w : W) : W := w.

(** ** What the operation has in store *)

(** The operation as the executor meets it from the world [w] and the
    delay state [delay]: called, and called again after each rejection
    and the pause the executor makes for it, it rejects with the errors
    [es], in this order, and then fulfils with [v].  Its first success
    is at the attempt of index [length es]. *)
Fixpoint rejects_then_fulfils {T W : Type} (fn : W -> (T + Error) * W)
  (sleep : Num.number -> W -> W) (maxDelay backoffMultiplier : Num.number)
  (delay : Num.number) (es : list Error) (v : T) (w : W) : Prop :=
  match es with
  | [] => fst (fn w) = inl v
  | e :: es' =>
      fst (fn w) = inr e
      /\ rejects_then_fulfils fn sleep maxDelay backoffMultiplier
           (nextDelay delay backoffMultiplier maxDelay) es' v
           (sleep (waitTime delay maxDelay e) (snd (fn w)))
  end.

(** ** The hint in exact arithmetic *)

(** The pause a hint asks for as the specification words it: the decimal
    numeral read as seconds, converted to milliseconds and rounded up to
    a whole millisecond, all in exact arithmetic. *)
Definition spec_hint_millis (g : string) : Z :=
  let (int, rest) := Str.span_digits g in
  let frac := match rest with
              | String "."%char rest' => fst (Str.span_digits rest')
              | _ => EmptyString
              end in
  (- ((- (Str.digits_value 0 (int ++ frac) * 1000))
      / 10 ^ Z.of_nat (String.length frac)))%Z.

(** ** ASCII text *)

(** Every character of the string is an ASCII character, so that the
    string has as many characters here as it has UTF-16 units in
    JavaScript. *)
Fixpoint is_ascii (s : string) : bool :=
  match s with
  | EmptyString => true
  | String c s' => (nat_of_ascii c <? 128)%nat && is_ascii s'
  end.

(** ** The shape of a run *)

(** The events of one retried attempt: the call that rejected with the
    error [fst x], the notice with its attempt number and the pause of
    length [snd x]. *)
Definition retried_attempt {T : Type} (maxRetries attemptNo : Z)
  (x : Error * Num.number) : list (event T) :=
  [Called (inr (fst x));
   Logged attemptNo maxRetries (snd x)
          (option_map (substring 0 100) (message (fst x)));
   Slept (snd x)].

(** The events of consecutive retried attempts, the first of which is
    announced as attempt [first]. *)
Fixpoint retried_attempts {T : Type} (maxRetries first : Z)
  (xs : list (Error * Num.number)) : list (event T) :=
  match xs with
  | [] => []
  | x :: xs' =>
      retried_attempt maxRetries first x
      ++ retried_attempts maxRetries (first + 1) xs'
  end.

(** No fraction follows: the string does not start with a dot and a
    digit. *)
Definition no_fraction_follows (s : string) : Prop :=
  forall t, s = String "."%char t -> Str.no_leading_digit t.

(** * Properties *)

(** ** Substring search *)

Lemma prefix_app (p s : string) :
  String.prefix p s = true <-> exists r, s = p ++ r.
Proof.
  revert s; induction p as [|c p IH]; intros s; simpl.
  - destruct s; split; eauto.
  - destruct s as [|d s]; simpl.
    + split; [discriminate | intros [r Hr]; discriminate].
    + destruct (ascii_dec c d) as [->|Hcd].
      * rewrite IH. split; intros [r Hr]; exists r; congruence.
      * split; [discriminate | intros [r Hr]; congruence].
Qed.

Lemma includes_unfold (s pat : string) :
  Str.includes s pat =
  if String.prefix pat s then true
  else match s with
       | EmptyString => false
       | String _ s' => Str.includes s' pat
       end.
Proof. destruct s; reflexivity. Qed.

Lemma includes_contains (s pat : string) :
  Str.includes s pat = true <-> Str.contains s pat.
Proof.
  unfold Str.contains. induction s as [|c s IH]; rewrite includes_unfold.
  - destruct (String.prefix pat "") eqn:Hp.
    + split; [intros _ | reflexivity].
      apply prefix_app in Hp as [r Hr]. exists "", r. exact Hr.
    + split; [discriminate |].
      intros (a & b & Hab). destruct a; [| discriminate].
      simpl in Hab. assert (String.prefix pat "" = true) as E
        by (apply prefix_app; eauto). congruence.
  - destruct (String.prefix pat (String c s)) eqn:Hp.
    + split; [intros _ | reflexivity].
      apply prefix_app in Hp as [r Hr]. exists "", r. exact Hr.
    + rewrite IH. split.
      * intros (a & b & ->). exists (String c a), b. reflexivity.
      * intros (a & b & Hab). destruct a as [|c' a]; simpl in Hab.
        -- assert (String.prefix pat (String c s) = true) as E
             by (apply prefix_app; eauto). congruence.
        -- exists a, b. congruence.
Qed.

Lemma string_length_app (a b : string) :
  String.length (a ++ b) = (String.length a + String.length b)%nat.
Proof. induction a as [|c a IH]; simpl; [reflexivity | now rewrite IH]. Qed.

Lemma string_app_nil_r (a : string) : a ++ "" = a.
Proof. induction a as [|c a IH]; simpl; [reflexivity | now rewrite IH]. Qed.

Lemma string_app_assoc (a b c : string) : (a ++ b) ++ c = a ++ (b ++ c).
Proof. induction a as [|x a IH]; simpl; [reflexivity | now rewrite IH]. Qed.

(** ** Classification *)

(** The classification by the message alone. *)
Lemma isRetryable_message (e : Error) :
  isRetryable e =
  match message e with
  | None => false
  | Some m =>
      Str.includes m "429" || Str.includes m "quota"
      || Str.includes m "rate limit"
      || Str.includes m "500" || Str.includes m "503"
  end.
Proof.
  unfold isRetryable, isRateLimitError, isServerError, message_includes.
  destruct (message e) as [m|]; simpl; [| reflexivity].
  destruct (Str.includes m "429"), (Str.includes m "quota"),
    (Str.includes m "rate limit"), (Str.includes m "500"),
    (Str.includes m "503"); reflexivity.
Qed.

(** The classification in terms of what the message contains. *)
Lemma retryable_message_contains (e : Error) :
  isRetryable e = true <->
  exists m, message e = Some m
            /\ (Str.contains m "429" \/ Str.contains m "quota"
                \/ Str.contains m "rate limit"
                \/ Str.contains m "500" \/ Str.contains m "503").
Proof.
  rewrite isRetryable_message.
  destruct (message e) as [m|].
  - rewrite !orb_true_iff, !includes_contains. split.
    + intros H. exists m. intuition.
    + intros (m' & Hm & H). inversion Hm; subst. intuition.
  - split; [discriminate | intros (m & Hm & _); discriminate].
Qed.

(** C2, as stated, fails: the phrase "quota" written with a capital is a
    retryable message in the specification's words and a non-retryable one
    for the code, whose [includes] compares characters as they are. *)
Lemma classification_is_case_sensitive :
  spec_isRetryable (mkError "Error" (Some "Quota exceeded")) = true
  /\ isRetryable (mkError "Error" (Some "Quota exceeded")) = false.
Proof. split; reflexivity. Qed.

(** C2, amended: an error is retried if and only if its message contains
    one of "429", "quota", "rate limit", "500", "503", each compared
    character for character; an error without a message, or with the
    empty message, is not retried. *)
Theorem retryable_iff_message_contains (e : Error) :
  (isRetryable e = true <->
   exists m, message e = Some m
             /\ (Str.contains m "429" \/ Str.contains m "quota"
                 \/ Str.contains m "rate limit"
                 \/ Str.contains m "500" \/ Str.contains m "503"))
  /\ (message e = None \/ message e = Some "" -> isRetryable e = false).
Proof.
  split; [apply retryable_message_contains |].
  rewrite isRetryable_message. intros [-> | ->]; reflexivity.
Qed.

(** ** The retry-hint expression *)

(** Every character is among the 256 one-byte characters. *)
Lemma all_ascii_complete (c : ascii) :
  In c (List.map ascii_of_nat (seq 0 256)).
Proof.
  rewrite <- (ascii_nat_embedding c). apply in_map, in_seq.
  pose proof (nat_ascii_bounded c). lia.
Qed.

(** Two characters have the same canonical form exactly when they have
    the same lower-case form. *)
Lemma casefold_agree (c d : ascii) :
  Ascii.eqb (Str.canonicalize c) (Str.canonicalize d)
  = Ascii.eqb (Str.lower_char c) (Str.lower_char d).
Proof.
  assert (Hall :
            forallb
              (fun c =>
                 forallb
                   (fun d =>
                      Bool.eqb
                        (Ascii.eqb (Str.canonicalize c) (Str.canonicalize d))
                        (Ascii.eqb (Str.lower_char c) (Str.lower_char d)))
                   (List.map ascii_of_nat (seq 0 256)))
              (List.map ascii_of_nat (seq 0 256))
            = true) by (vm_compute; reflexivity).
  rewrite forallb_forall in Hall.
  specialize (Hall c (all_ascii_complete c)).
  rewrite forallb_forall in Hall.
  specialize (Hall d (all_ascii_complete d)).
  now apply Bool.eqb_prop in Hall.
Qed.

(** The literal part of the expression consumes a prefix that reads as
    the literal once both are put in lower case. *)
Lemma match_literal_i_spec (kw s rest : string) :
  Str.match_literal_i kw s = Some rest <->
  exists k, s = k ++ rest /\ Str.toLowerCase k = Str.toLowerCase kw.
Proof.
  revert s. induction kw as [|x kw IH]; intros s; simpl.
  - split.
    + intros H. inversion H; subst. exists "". auto.
    + intros (k & -> & Hk). destruct k; [reflexivity | discriminate].
  - destruct s as [|c s].
    + split; [discriminate |].
      intros (k & Hs & Hk). destruct k; discriminate.
    + rewrite casefold_agree.
      destruct (Ascii.eqb_spec (Str.lower_char x) (Str.lower_char c))
        as [Heq|Hne].
      * rewrite IH. split.
        -- intros (k & -> & Hk). exists (String c k). simpl.
           split; [reflexivity | congruence].
        -- intros (k & Hs & Hk). destruct k as [|c' k]; [discriminate |].
           simpl in Hs, Hk. inversion Hs; subst. inversion Hk.
           exists k. auto.
      * split; [discriminate |].
        intros (k & Hs & Hk). destruct k as [|c' k]; [discriminate |].
        simpl in Hs, Hk. inversion Hs; subst. inversion Hk. congruence.
Qed.

(** The number part of the expression matches exactly where a digit
    stands. *)
Lemma match_number_some (s : string) :
  (exists g, Str.match_number s = Some g) <->
  exists d rest, s = String d rest /\ Str.is_digit d = true.
Proof.
  unfold Str.match_number. destruct s as [|c s]; simpl.
  - split; [intros [g H]; discriminate |].
    intros (d & rest & H & _). discriminate.
  - destruct (Str.is_digit c) eqn:Hc.
    + destruct (Str.span_digits s) as [int rest]. split; [eauto |].
      intros _. destruct rest as [|x rest]; [eauto |].
      destruct x as [[] [] [] [] [] [] [] []]; try (eauto; fail).
      destruct (Str.span_digits rest) as [[|? ?] ?]; eauto.
    + split; [intros [g H]; discriminate |].
      intros (d & rest & H & Hd). inversion H; subst. congruence.
Qed.

Lemma match_here_some (s : string) :
  (exists g, Str.match_here s = Some g) <->
  exists kw d rest,
    s = kw ++ String d rest
    /\ Str.toLowerCase kw = "retry in " /\ Str.is_digit d = true.
Proof.
  unfold Str.match_here. split.
  - intros [g Hg].
    destruct (Str.match_literal_i "retry in " s) as [tail|] eqn:Hlit;
      [| discriminate].
    apply match_literal_i_spec in Hlit as (kw & -> & Hkw).
    destruct (proj1 (match_number_some tail) (ex_intro _ g Hg))
      as (d & rest & -> & Hd).
    exists kw, d, rest. auto.
  - intros (kw & d & rest & -> & Hkw & Hd).
    assert (Hlit : Str.match_literal_i "retry in " (kw ++ String d rest)
                   = Some (String d rest))
      by (apply match_literal_i_spec; exists kw; auto).
    rewrite Hlit. apply match_number_some. eauto.
Qed.

(** [span_digits] splits its argument into its longest head of digits
    and the rest. *)
Lemma span_digits_spec (s d rest : string) :
  Str.span_digits s = (d, rest) ->
  s = d ++ rest /\ Str.all_digits d = true /\ Str.no_leading_digit rest.
Proof.
  revert d rest. induction s as [|c s IH]; intros d rest; simpl.
  - intros H. inversion H; subst. simpl. auto.
  - destruct (Str.is_digit c) eqn:Hc.
    + destruct (Str.span_digits s) as [d' r'].
      intros H. inversion H; subst.
      destruct (IH d' rest eq_refl) as (-> & Hd & Hr).
      simpl. rewrite Hc, Hd. auto.
    + intros H. inversion H; subst. simpl. auto.
Qed.

(** The capture of the number part is a decimal numeral that stands at
    the head of the string and is not followed by a further digit. *)
Lemma match_number_capture (s g : string) :
  Str.match_number s = Some g ->
  Str.decimal g /\ exists rest, s = g ++ rest /\ Str.no_leading_digit rest.
Proof.
  unfold Str.match_number, Str.decimal.
  destruct (Str.span_digits s) as [int rest] eqn:Hspan.
  apply span_digits_spec in Hspan as (-> & Hint & Hrest).
  destruct int as [|c int]; [discriminate |].
  assert (Hplain :
            (exists int0 frac,
                int0 <> "" /\ Str.all_digits int0 = true
                /\ Str.all_digits frac = true
                /\ (String c int = int0
                    \/ (frac <> "" /\ String c int = int0 ++ "." ++ frac)))
            /\ exists rest0,
                String c int ++ rest = String c int ++ rest0
                /\ Str.no_leading_digit rest0).
  { split; [exists (String c int), "" | exists rest]; repeat split; auto.
    discriminate. }
  destruct rest as [|x rest]; [intros H; inversion H; subst; exact Hplain |].
  destruct (Ascii.eqb_spec x "."%char) as [->|Hx].
  - destruct (Str.span_digits rest) as [frac rest'] eqn:Hfrac.
    apply span_digits_spec in Hfrac as (-> & Hf & Hrest').
    destruct frac as [|f frac]; intros H; inversion H; subst;
      [exact Hplain |].
    split.
    + exists (String c int), (String f frac). repeat split; auto;
        try discriminate.
      right. split; [discriminate | reflexivity].
    + exists rest'. split; [| exact Hrest'].
      simpl. f_equal. rewrite !string_app_assoc. reflexivity.
  - intros H.
    assert (Hg : Some (String c int) = Some g).
    { destruct x as [[] [] [] [] [] [] [] []]; try exact H.
      now contradiction Hx. }
    inversion Hg; subst. exact Hplain.
Qed.

(** The capture of the expression is a decimal numeral of the message:
    it stands right after the words "retry in " (in any mix of cases)
    and no digit follows it. *)
Lemma retry_hint_capture (m g : string) :
  Str.match_retry_in m = Some g ->
  Str.decimal g
  /\ exists pre kw rest,
       m = pre ++ kw ++ g ++ rest
       /\ Str.toLowerCase kw = "retry in "
       /\ Str.no_leading_digit rest.
Proof.
  induction m as [|c m IH].
  - simpl. discriminate.
  - assert (Hunfold :
              Str.match_retry_in (String c m)
              = match Str.match_here (String c m) with
                | Some g => Some g
                | None => Str.match_retry_in m
                end) by reflexivity.
    rewrite Hunfold. clear Hunfold.
    destruct (Str.match_here (String c m)) as [g'|] eqn:Hhere.
    + intros H. inversion H; subst g'. unfold Str.match_here in Hhere.
      destruct (Str.match_literal_i "retry in " (String c m))
        as [tail|] eqn:Hlit; [| discriminate].
      apply match_literal_i_spec in Hlit as (kw & Hs & Hkw).
      apply match_number_capture in Hhere as (Hdec & rest & -> & Hrest).
      split; [exact Hdec |]. exists "", kw, rest. auto.
    + intros H. destruct (IH H) as (Hdec & pre & kw & rest & -> & Hkw & Hrest).
      split; [exact Hdec |]. exists (String c pre), kw, rest. auto.
Qed.

Lemma span_digits_app (d rest : string) :
  Str.all_digits d = true ->
  Str.no_leading_digit rest ->
  Str.span_digits (d ++ rest) = (d, rest).
Proof.
  intros Hd Hrest. induction d as [|c d IH]; simpl in *.
  - destruct rest as [|x rest]; [reflexivity |].
    simpl in *. now rewrite Hrest.
  - apply andb_prop in Hd as [Hc Hd]. now rewrite Hc, IH.
Qed.

(** What [parseFloat] makes of a decimal numeral: the number nearest to
    the integer its digits spell, or to all its digits read as an integer
    over the power of ten of the number of digits after the dot. *)
Lemma parseFloat_decimal (int frac : string) :
  int <> "" ->
  Str.all_digits int = true ->
  Str.all_digits frac = true ->
  Str.parseFloat int = Num.of_ratio (Str.digits_value 0 int) 1
  /\ Str.parseFloat (int ++ "." ++ frac)
     = Num.of_ratio (Str.digits_value 0 (int ++ frac))
                    (10 ^ Z.of_nat (String.length frac)).
Proof.
  intros Hne Hint Hfrac.
  pose proof (span_digits_app int "" Hint I) as Hi.
  pose proof (span_digits_app frac "" Hfrac I) as Hf.
  rewrite string_app_nil_r in Hi, Hf.
  unfold Str.parseFloat. split.
  - rewrite Hi, string_app_nil_r.
    destruct int; [contradiction | reflexivity].
  - rewrite (span_digits_app int ("." ++ frac) Hint eq_refl). simpl.
    rewrite Hf. simpl.
    destruct int; [contradiction | reflexivity].
Qed.

(** The expression matches a message exactly when the message shows a
    retry hint. *)
Lemma retry_hint_present_iff (m : string) :
  (exists g, Str.match_retry_in m = Some g) <-> has_retry_hint m.
Proof.
  unfold has_retry_hint. induction m as [|c m IH].
  - simpl. split.
    + intros [g H]. discriminate.
    + intros (pre & kw & d & rest & H & _).
      destruct pre; [destruct kw |]; discriminate.
  - assert (Hunfold :
              Str.match_retry_in (String c m)
              = match Str.match_here (String c m) with
                | Some g => Some g
                | None => Str.match_retry_in m
                end) by reflexivity.
    rewrite Hunfold. clear Hunfold.
    destruct (Str.match_here (String c m)) as [g|] eqn:Hhere.
    + split; [| eauto]. intros _.
      destruct (proj1 (match_here_some (String c m)) (ex_intro _ g Hhere))
        as (kw & d & rest & Hs & Hkw & Hd).
      exists "", kw, d, rest. auto.
    + rewrite IH. split.
      * intros (pre & kw & d & rest & -> & Hkw & Hd).
        exists (String c pre), kw, d, rest. auto.
      * intros (pre & kw & d & rest & Hs & Hkw & Hd).
        destruct pre as [|c' pre].
        -- simpl in Hs.
           assert (Hsome : exists g, Str.match_here (String c m) = Some g)
             by (apply match_here_some; eauto 10).
           destruct Hsome as [g Hg]. congruence.
        -- simpl in Hs. inversion Hs; subst. eauto 10.
Qed.

(** ** Numbers *)

(** A number other than NaN compares equal to itself. *)
Lemma SFcompare_refl (x : Num.number) :
  x <> Num.NaN -> SFcompare x x = Some Eq.
Proof.
  destruct x as [s|s| |s m e]; simpl; intros H; try reflexivity.
  - now destruct s.
  - contradiction.
  - destruct s; rewrite Z.compare_refl;
      change (Pos.compare_cont Eq m m) with (Pos.compare m m);
      now rewrite Pos.compare_refl.
Qed.

(** Comparing in the other order gives the opposite answer. *)
Lemma SFcompare_antisym (x y : Num.number) (c : comparison) :
  SFcompare x y = Some c -> SFcompare y x = Some (CompOpp c).
Proof.
  destruct x as [sx|sx| |sx mx ex], y as [sy|sy| |sy my ey]; simpl;
    intros H; inversion H; subst; clear H;
    try (destruct sx; reflexivity); try (destruct sy; reflexivity);
    try (destruct sx, sy; reflexivity).
  destruct sx, sy; try reflexivity; f_equal;
    rewrite (Z.compare_antisym ex ey);
    change (Pos.compare_cont Eq my mx) with (Pos.compare my mx);
    change (Pos.compare_cont Eq mx my) with (Pos.compare mx my);
    rewrite (Pos.compare_antisym mx my);
    destruct (ex ?= ey)%Z; simpl; try reflexivity;
    destruct (mx ?= my)%positive; reflexivity.
Qed.

(** [Math.min(a, b)] is NaN or at most [b]. *)
Lemma Math_min_le (a b : Num.number) :
  Num.Math_min a b = Num.NaN \/ Num.leb (Num.Math_min a b) b = true.
Proof.
  assert (Hrefl : forall x, x <> Num.NaN -> Num.leb x x = true).
  { intros x Hx. unfold Num.leb, SFleb. now rewrite SFcompare_refl. }
  assert (Hgen : b <> Num.NaN ->
                 (if SFltb b a then b else a) = Num.NaN
                 \/ Num.leb (if SFltb b a then b else a) b = true).
  { intros Hb. unfold SFltb.
    destruct (SFcompare b a) as [c|] eqn:Hc.
    - apply SFcompare_antisym in Hc.
      destruct c; simpl in Hc; try (right; now apply Hrefl);
        right; unfold Num.leb, SFleb; now rewrite Hc.
    - destruct a; try (left; reflexivity);
        destruct b; try discriminate; now contradiction Hb. }
  destruct a as [[]|sa| |[] ma ea]; destruct b as [[]|sb| |[] mb eb];
    try (left; reflexivity);
    try (apply Hgen; discriminate).
  right. reflexivity.
Qed.

(** [Math.min(a, b)] is [a] when [a <= b], two zeros apart. *)
Lemma Math_min_left (a b : Num.number) :
  Num.leb a b = true ->
  (forall s, a <> S754_zero s) ->
  Num.Math_min a b = a.
Proof.
  unfold Num.leb, SFleb. intros Hle Hnz.
  destruct (SFcompare a b) as [c|] eqn:Hc; [| discriminate].
  assert (Hlt : SFltb b a = false).
  { unfold SFltb. rewrite (SFcompare_antisym _ _ _ Hc).
    destruct c; try reflexivity; discriminate. }
  destruct a as [sa|sa| |sa ma ea]; destruct b as [sb|sb| |sb mb eb];
    try discriminate; try (now contradiction (Hnz sa));
    unfold Num.Math_min; now rewrite Hlt.
Qed.

(** [Math.min(a, b)] is NaN or one of its arguments. *)
Lemma Math_min_cases (a b : Num.number) :
  Num.Math_min a b = Num.NaN
  \/ Num.Math_min a b = b
  \/ Num.Math_min a b = a.
Proof.
  destruct a as [[]|sa| |sa ma ea]; destruct b as [[]|sb| |sb mb eb];
    try (left; reflexivity); try (right; left; reflexivity);
    unfold Num.Math_min;
    match goal with
    | |- context [SFltb ?y ?x] => destruct (SFltb y x); auto
    end.
Qed.

(** Capping twice is capping once. *)
Lemma Math_min_idem (x m : Num.number) :
  Num.Math_min (Num.Math_min x m) m = Num.Math_min x m.
Proof.
  assert (Hself : forall y, Num.Math_min y y = y).
  { intros y. destruct y as [[]|sy| |sy my ey]; try reflexivity;
      unfold Num.Math_min, SFltb;
      rewrite SFcompare_refl by discriminate; reflexivity. }
  destruct (Math_min_cases x m) as [H | [H | H]]; rewrite H.
  - reflexivity.
  - apply Hself.
  - exact H.
Qed.

(** The conversion of a hint to milliseconds is a product of doubles:
    the double nearest to 2.5 times 1000 is 2500, while the double
    nearest to 2.007 times 1000 lies just above 2007 and is rounded up
    to 2008. *)
Lemma hint_conversion_examples (delay : Num.number) :
  waitTime delay (Num.of_Z 60000)
           (new_Error "rate limit exceeded, retry in 2.5 seconds")
  = Num.of_Z 2500
  /\ waitTime delay (Num.of_Z 60000) (new_Error "429: retry in 2.007s")
     = Num.of_Z 2008.
Proof. split; vm_compute; reflexivity. Qed.

(** ** Events *)

Lemma calls_app {T : Type} (a b : list (event T)) :
  calls (a ++ b) = (calls a ++ calls b)%list.
Proof.
  induction a as [|[r|? ? ? ?|ms] a IH]; simpl; [reflexivity | f_equal | |];
    exact IH.
Qed.

Lemma waits_app {T : Type} (a b : list (event T)) :
  waits (a ++ b) = (waits a ++ waits b)%list.
Proof.
  induction a as [|[r|? ? ? ?|ms] a IH]; simpl; [reflexivity | | | f_equal];
    exact IH.
Qed.

(** ** The attempt loop *)

Section Loop.

Context {T W : Type}.
Variable fn : W -> (T + Error) * W.
Variable sleep : Num.number -> W -> W.
Variables (maxRetries : Z) (maxDelay backoffMultiplier : Num.number).

Local Abbreviation loop :=
  (attempts fn sleep maxRetries maxDelay backoffMultiplier).

(** One iteration of the loop, by the branch it takes. *)
Lemma attempts_step attempt delay lastError w :
  loop attempt delay lastError w =
  if Z_le_dec attempt maxRetries then
    match fn w with
    | (inl v, w1) => mkRun [Called (inl v)] (Returned v) ReturnValue w1
    | (inr error, w1) =>
        if isRetryable error then
          if (attempt =? maxRetries)%Z
          then mkRun [Called (inr error)]
                     (Threw (new_Error (max_retries_message maxRetries error)))
                     ThrowMaxRetries w1
          else
            after [Called (inr error);
                   Logged (attempt + 1) maxRetries
                          (waitTime delay maxDelay error)
                          (option_map (substring 0 100) (message error));
                   Slept (waitTime delay maxDelay error)]
                  (loop (attempt + 1)
                        (nextDelay delay backoffMultiplier maxDelay)
                        (Some error)
                        (sleep (waitTime delay maxDelay error) w1))
        else mkRun [Called (inr error)] (Threw error) ThrowNonRetryable w1
    end
  else
    mkRun []
          (Threw (default (new_Error "Retry failed with unknown error")
                          lastError))
          ThrowAfterLoop w.
Proof.
  rewrite attempts_equation_1.
  destruct (Z_le_dec attempt maxRetries) as [Hle|Hgt]; simpl; [| reflexivity].
  destruct (fn w) as [[v|error] w1]; [reflexivity |].
  unfold isRetryable.
  destruct (negb (truthy (isRateLimitError error))
            && negb (truthy (isServerError error))); reflexivity.
Qed.

(** Induction over the iterations of the loop: a property of the loop
    state and the run from it holds of every run as soon as it holds of
    each of the five ways an iteration can go. *)
Lemma attempts_ind
  (P : Z -> Num.number -> option Error -> W -> run T W -> Prop)
  (Hafter : forall attempt delay lastError w,
      (maxRetries < attempt)%Z ->
      P attempt delay lastError w
        (mkRun []
               (Threw (default (new_Error "Retry failed with unknown error")
                               lastError))
               ThrowAfterLoop w))
  (Hvalue : forall attempt delay lastError w v w1,
      (attempt <= maxRetries)%Z ->
      fn w = (inl v, w1) ->
      P attempt delay lastError w
        (mkRun [Called (inl v)] (Returned v) ReturnValue w1))
  (Hfatal : forall attempt delay lastError w error w1,
      (attempt <= maxRetries)%Z ->
      fn w = (inr error, w1) ->
      isRetryable error = false ->
      P attempt delay lastError w
        (mkRun [Called (inr error)] (Threw error) ThrowNonRetryable w1))
  (Hlast : forall delay lastError w error w1,
      fn w = (inr error, w1) ->
      isRetryable error = true ->
      P maxRetries delay lastError w
        (mkRun [Called (inr error)]
               (Threw (new_Error (max_retries_message maxRetries error)))
               ThrowMaxRetries w1))
  (Hretry : forall attempt delay lastError w error w1 r,
      (attempt < maxRetries)%Z ->
      fn w = (inr error, w1) ->
      isRetryable error = true ->
      r = loop (attempt + 1) (nextDelay delay backoffMultiplier maxDelay)
               (Some error) (sleep (waitTime delay maxDelay error) w1) ->
      P (attempt + 1)%Z (nextDelay delay backoffMultiplier maxDelay)
        (Some error) (sleep (waitTime delay maxDelay error) w1) r ->
      P attempt delay lastError w
        (after [Called (inr error);
                Logged (attempt + 1) maxRetries
                       (waitTime delay maxDelay error)
                       (option_map (substring 0 100) (message error));
                Slept (waitTime delay maxDelay error)] r)) :
  forall attempt delay lastError w,
    P attempt delay lastError w (loop attempt delay lastError w).
Proof.
  intros attempt.
  remember (Z.to_nat (maxRetries + 1 - attempt)) as n eqn:Hn.
  revert attempt Hn.
  induction n as [|n IH]; intros attempt Hn delay lastError w;
    rewrite attempts_step;
    destruct (Z_le_dec attempt maxRetries) as [Hle|Hgt];
    try (apply Hafter; lia); try lia.
  destruct (fn w) as [[v|error] w1] eqn:Hfn.
  - now apply Hvalue.
  - destruct (isRetryable error) eqn:Hre; [| now apply Hfatal].
    destruct (Z.eqb_spec attempt maxRetries) as [->|Hne].
    + now apply Hlast with (1 := Hfn).
    + apply Hretry with (2 := Hfn); try reflexivity; try assumption; try lia.
      apply IH. lia.
Qed.

(** A run that enters the loop leaves the function from inside it. *)
Lemma loop_exits_inside attempt delay lastError w :
  (attempt <= maxRetries)%Z ->
  exit_at (loop attempt delay lastError w) <> ThrowAfterLoop.
Proof.
  revert attempt delay lastError w.
  apply (attempts_ind
           (fun attempt _ _ _ r =>
              (attempt <= maxRetries)%Z -> exit_at r <> ThrowAfterLoop));
    simpl; intros; try discriminate; try lia.
  match goal with IH : _ -> exit_at _ <> _ |- _ => apply IH; lia end.
Qed.

(** The last event of such a run is a call of the operation, and the
    run ends as that call decides. *)
Lemma loop_exit_cases attempt delay lastError w :
  (attempt <= maxRetries)%Z ->
  let r := loop attempt delay lastError w in
  exists pre last,
    events r = (pre ++ [Called last])%list
    /\ match last with
       | inl v => result r = Returned v /\ exit_at r = ReturnValue
       | inr e =>
           (isRetryable e = false
            /\ result r = Threw e /\ exit_at r = ThrowNonRetryable)
           \/ (isRetryable e = true
               /\ result r
                  = Threw (new_Error (max_retries_message maxRetries e))
               /\ exit_at r = ThrowMaxRetries)
       end.
Proof.
  revert attempt delay lastError w. cbv zeta.
  apply (attempts_ind
           (fun attempt _ _ _ r =>
              (attempt <= maxRetries)%Z ->
              exists pre last,
                events r = (pre ++ [Called last])%list
                /\ match last with
                   | inl v => result r = Returned v /\ exit_at r = ReturnValue
                   | inr e =>
                       (isRetryable e = false
                        /\ result r = Threw e
                        /\ exit_at r = ThrowNonRetryable)
                       \/ (isRetryable e = true
                           /\ result r
                              = Threw (new_Error
                                         (max_retries_message maxRetries e))
                           /\ exit_at r = ThrowMaxRetries)
                   end)).
  - intros; lia.
  - intros; exists [], (inl v); simpl; auto.
  - intros; exists [], (inr error); simpl; auto.
  - intros; exists [], (inr error); simpl; auto.
  - intros attempt delay lastError w error w1 r Hlt Hfn Hre Hr IH _.
    destruct IH as (pre & last & Hev & Hlast); [lia |].
    eexists (_ :: _ :: _ :: pre), last. simpl. rewrite Hev. auto.
Qed.

(** The operation is called at most once per remaining attempt. *)
Lemma loop_calls_bound attempt delay lastError w :
  (Z.of_nat (List.length (calls (events (loop attempt delay lastError w))))
   <= Z.max 0 (maxRetries + 1 - attempt))%Z.
Proof.
  revert attempt delay lastError w.
  apply (attempts_ind
           (fun attempt _ _ _ r =>
              (Z.of_nat (List.length (calls (events r)))
               <= Z.max 0 (maxRetries + 1 - attempt))%Z));
    simpl; intros; lia.
Qed.

(** Every call but the last is followed by exactly one pause. *)
Lemma loop_waits_count attempt delay lastError w :
  (attempt <= maxRetries)%Z ->
  let r := loop attempt delay lastError w in
  List.length (calls (events r)) = S (List.length (waits (events r))).
Proof.
  revert attempt delay lastError w. cbv zeta.
  apply (attempts_ind
           (fun attempt _ _ _ r =>
              (attempt <= maxRetries)%Z ->
              List.length (calls (events r))
              = S (List.length (waits (events r)))));
    simpl; intros; try reflexivity; lia.
Qed.

(** A call that fulfils is the last one, and its value is returned. *)
Lemma loop_success_last attempt delay lastError w k v :
  let r := loop attempt delay lastError w in
  nth_error (calls (events r)) k = Some (inl v) ->
  List.length (calls (events r)) = S k
  /\ result r = Returned v /\ exit_at r = ReturnValue.
Proof.
  revert attempt delay lastError w k. cbv zeta.
  apply (attempts_ind
           (fun _ _ _ _ r =>
              forall k,
                nth_error (calls (events r)) k = Some (inl v) ->
                List.length (calls (events r)) = S k
                /\ result r = Returned v /\ exit_at r = ReturnValue));
    simpl; intros.
  - destruct k; discriminate.
  - destruct k as [|[|k]]; simpl in *; try discriminate.
    split; [reflexivity | split; [congruence | reflexivity]].
  - destruct k as [|[|k]]; discriminate.
  - destruct k as [|[|k]]; discriminate.
  - destruct k as [|k]; simpl in *; [discriminate |].
    match goal with
    | IH : forall k, nth_error _ k = _ -> _, Hk : nth_error _ k = _ |- _ =>
        destruct (IH k Hk) as (Hlen & Hres & Hexit)
    end.
    rewrite Hlen. auto.
Qed.

(** When every call of a run rejects with a retryable error, the run
    uses all the attempts left and ends, right after the last call, with
    the error of line 47 built from that call's error. *)
Lemma loop_all_retryable attempt delay lastError w :
  (attempt <= maxRetries)%Z ->
  let r := loop attempt delay lastError w in
  Forall (fun c => exists e, c = inr e /\ isRetryable e = true)
         (calls (events r)) ->
  Z.of_nat (List.length (calls (events r))) = (maxRetries + 1 - attempt)%Z
  /\ exists pre e,
       events r = (pre ++ [Called (inr e)])%list
       /\ result r = Threw (new_Error (max_retries_message maxRetries e))
       /\ exit_at r = ThrowMaxRetries.
Proof.
  revert attempt delay lastError w. cbv zeta.
  apply (attempts_ind
           (fun attempt _ _ _ r =>
              (attempt <= maxRetries)%Z ->
              Forall (fun c => exists e, c = inr e /\ isRetryable e = true)
                     (calls (events r)) ->
              Z.of_nat (List.length (calls (events r)))
              = (maxRetries + 1 - attempt)%Z
              /\ exists pre e,
                   events r = (pre ++ [Called (inr e)])%list
                   /\ result r
                      = Threw (new_Error (max_retries_message maxRetries e))
                   /\ exit_at r = ThrowMaxRetries));
    simpl.
  - intros; lia.
  - intros attempt delay lastError w v w1 _ _ _ Hall.
    inversion Hall as [|c l (e & He & _) _]; discriminate.
  - intros attempt delay lastError w error w1 _ _ Hre _ Hall.
    inversion Hall as [|c l (e & He & Hre') _]; congruence.
  - intros delay lastError w error w1 _ _ _ _. split; [lia |].
    exists [], error. auto.
  - intros attempt delay lastError w error w1 r Hlt _ _ _ IH _ Hall.
    inversion Hall as [|c l _ Hall']; subst.
    destruct IH as (Hlen & pre & e & Hev & Hres & Hexit); [lia | exact Hall' |].
    split; [lia |].
    eexists (_ :: _ :: _ :: pre), e. rewrite Hev.
    split; [reflexivity | auto].
Qed.

(** A call that rejects with a non-retryable error is the last event of
    the run, which rethrows that error. *)
Lemma loop_nonretryable_stops attempt delay lastError w pre e post :
  let r := loop attempt delay lastError w in
  events r = (pre ++ Called (inr e) :: post)%list ->
  isRetryable e = false ->
  post = [] /\ result r = Threw e /\ exit_at r = ThrowNonRetryable.
Proof.
  revert attempt delay lastError w pre. cbv zeta.
  apply (attempts_ind
           (fun _ _ _ _ r =>
              forall pre,
                events r = (pre ++ Called (inr e) :: post)%list ->
                isRetryable e = false ->
                post = [] /\ result r = Threw e
                /\ exit_at r = ThrowNonRetryable));
    simpl.
  - intros ? ? ? ? _ [|? ?] H; discriminate.
  - intros ? ? ? ? ? ? _ _ [|? [|? ?]] H; discriminate.
  - intros ? ? ? ? ? ? _ _ _ [|? [|? ?]] H _; try discriminate.
    inversion H; subst. auto.
  - intros ? ? ? ? ? _ Hre [|? [|? ?]] H Hne; try discriminate.
    inversion H; subst. congruence.
  - intros ? ? ? ? ? ? r _ _ Hre _ IH [|? [|? [|? pre]]] H Hne;
      try discriminate.
    + inversion H; subst. congruence.
    + inversion H; subst. now apply (IH pre).
Qed.

(** The pause after the call of index [i] is computed from that call's
    error and from the delay the loop started with, advanced [i] times
    by line 73. *)
Lemma loop_wait_schedule attempt delay lastError w i e wt :
  let r := loop attempt delay lastError w in
  nth_error (calls (events r)) i = Some (inr e) ->
  nth_error (waits (events r)) i = Some wt ->
  wt = waitTime
         (Nat.iter i (fun d => nextDelay d backoffMultiplier maxDelay) delay)
         maxDelay e.
Proof.
  revert attempt delay lastError w i. cbv zeta.
  apply (attempts_ind
           (fun _ delay _ _ r =>
              forall i,
                nth_error (calls (events r)) i = Some (inr e) ->
                nth_error (waits (events r)) i = Some wt ->
                wt = waitTime
                       (Nat.iter i
                          (fun d => nextDelay d backoffMultiplier maxDelay)
                          delay)
                       maxDelay e));
    simpl.
  - intros ? ? ? ? _ [|i]; discriminate.
  - intros ? ? ? ? ? ? _ _ [|i] _; discriminate.
  - intros ? ? ? ? ? ? _ _ _ [|i] _; discriminate.
  - intros ? ? ? ? ? _ _ [|i] _; discriminate.
  - intros ? ? ? ? ? ? r _ _ _ _ IH [|i] Hc Hw.
    + simpl in *. congruence.
    + rewrite Nat.iter_succ_r. now apply IH.
Qed.

(** The pause of index [i] stands right after the call of index [i],
    which rejected, and the notice that announces it. *)
Lemma loop_wait_follows_call attempt delay lastError w i wt :
  let r := loop attempt delay lastError w in
  nth_error (waits (events r)) i = Some wt ->
  exists pre e k post,
    events r
    = (pre ++ Called (inr e)
           :: Logged k maxRetries wt
                     (option_map (substring 0 100) (message e))
           :: Slept wt :: post)%list
    /\ nth_error (calls (events r)) i = Some (inr e)
    /\ List.length (calls pre) = i.
Proof.
  revert attempt delay lastError w i. cbv zeta.
  apply (attempts_ind
           (fun _ _ _ _ r =>
              forall i,
                nth_error (waits (events r)) i = Some wt ->
                exists pre e k post,
                  events r
                  = (pre ++ Called (inr e)
                         :: Logged k maxRetries wt
                                   (option_map (substring 0 100) (message e))
                         :: Slept wt :: post)%list
                  /\ nth_error (calls (events r)) i = Some (inr e)
                  /\ List.length (calls pre) = i));
    simpl.
  - intros ? ? ? ? _ [|i]; discriminate.
  - intros ? ? ? ? ? ? _ _ [|i]; discriminate.
  - intros ? ? ? ? ? ? _ _ _ [|i]; discriminate.
  - intros ? ? ? ? ? _ _ [|i]; discriminate.
  - intros attempt delay lastError w error w1 r _ _ _ _ IH [|i] Hw;
      simpl in Hw.
    + inversion Hw; subst wt.
      exists [], error, (attempt + 1)%Z, (events r). auto.
    + destruct (IH i Hw) as (pre & e & k & post & Hev & Hc & Hlen).
      eexists (_ :: _ :: _ :: pre), e, k, post.
      rewrite Hev. simpl. split; [reflexivity |].
      split; [rewrite <- Hev; exact Hc | simpl; now rewrite Hlen].
Qed.

(** No pause is longer than [maxDelay]: each is at most [maxDelay], or
    NaN when a number it is computed from is NaN. *)
Lemma loop_waits_le attempt delay lastError w :
  Forall (fun wt => wt = Num.NaN \/ Num.leb wt maxDelay = true)
         (waits (events (loop attempt delay lastError w))).
Proof.
  revert attempt delay lastError w.
  apply (attempts_ind
           (fun _ _ _ _ r =>
              Forall (fun wt => wt = Num.NaN \/ Num.leb wt maxDelay = true)
                     (waits (events r))));
    simpl; intros; try constructor; try assumption.
  apply Math_min_le.
Qed.

End Loop.

(** ** The executor *)

(** The message of line 47 shows the configured count and ends with the
    text of the error it reports. *)
Lemma max_retries_message_contains (n : Z) (e : Error) :
  Str.contains (max_retries_message n e) (Str.of_Z n)
  /\ Str.contains (max_retries_message n e) (Str.of_optional (message e)).
Proof.
  unfold max_retries_message, Str.contains. split.
  - eexists _, _. reflexivity.
  - exists ("Max retries (" ++ Str.of_Z n ++ ") reached. Last error: "), "".
    rewrite string_app_nil_r, !string_app_assoc. reflexivity.
Qed.

(** The error of line 47 is a new object: its message is longer than the
    message of the error it reports. *)
Lemma max_retries_error_fresh (n : Z) (e : Error) :
  new_Error (max_retries_message n e) <> e.
Proof.
  intros H. apply (f_equal message) in H.
  unfold max_retries_message in H. simpl in H.
  destruct (message e) as [m|]; [| discriminate].
  inversion H as [Hm]. apply (f_equal String.length) in Hm.
  simpl in Hm. rewrite !string_length_app in Hm. simpl in Hm. lia.
Qed.

Lemma retryWithBackoff_attempts {T W : Type} (fn : W -> (T + Error) * W)
  (sleep : Num.number -> W -> W) (options : option RetryOptions.t) (w : W) :
  retryWithBackoff fn sleep options w =
  attempts fn sleep (maxRetries_of options) (maxDelay_of options)
           (backoffMultiplier_of options) 0 (initialDelay_of options) None w.
Proof. reflexivity. Qed.

(** The operation is invoked at most [maxRetries + 1] times, and not at
    all when that is not positive. *)
Lemma invocations_bound {T W : Type} (fn : W -> (T + Error) * W)
  (sleep : Num.number -> W -> W) (options : option RetryOptions.t) (w : W) :
  (Z.of_nat (invocations (retryWithBackoff fn sleep options w))
   <= Z.max 0 (maxRetries_of options + 1))%Z.
Proof.
  rewrite retryWithBackoff_attempts. unfold invocations.
  pose proof (loop_calls_bound fn sleep (maxRetries_of options)
                (maxDelay_of options) (backoffMultiplier_of options)
                0 (initialDelay_of options) None w).
  lia.
Qed.

Section Claims.

Context {T W : Type}.
Variable fn : W -> (T + Error) * W.
Variable sleep : Num.number -> W -> W.
Variable options : option RetryOptions.t.
Variable w : W.

Local Abbreviation r := (retryWithBackoff fn sleep options w).

(** C7.  Under a configuration whose [maxRetries] is not negative, no
    run reaches line 77: every run leaves from inside the loop, right
    after a call of the operation, with the value of that call, with its
    non-retryable error, or with the error of line 47. *)
Theorem fallback_unreachable :
  (0 <= maxRetries_of options)%Z ->
  exit_at r <> ThrowAfterLoop
  /\ exists pre last,
       events r = (pre ++ [Called last])%list
       /\ match last with
          | inl v => result r = Returned v /\ exit_at r = ReturnValue
          | inr e =>
              (isRetryable e = false
               /\ result r = Threw e /\ exit_at r = ThrowNonRetryable)
              \/ (isRetryable e = true
                  /\ result r
                     = Threw (new_Error
                                (max_retries_message (maxRetries_of options) e))
                  /\ exit_at r = ThrowMaxRetries)
          end.
Proof.
  intros Hpos. rewrite retryWithBackoff_attempts. split.
  - now apply loop_exits_inside.
  - now apply loop_exit_cases.
Qed.

(** The bound on [maxRetries] is needed for that: with a negative
    [maxRetries] the loop body never runs and line 77 throws the
    fallback error. *)
Lemma fallback_reached_when_negative :
  (maxRetries_of options < 0)%Z ->
  r = mkRun [] (Threw (new_Error "Retry failed with unknown error"))
            ThrowAfterLoop w.
Proof.
  intros Hneg. rewrite retryWithBackoff_attempts, attempts_step.
  destruct (Z_le_dec 0 (maxRetries_of options)); [lia | reflexivity].
Qed.

(** C3.  When every invocation of a run rejects with a retryable error
    and [maxRetries] is [N >= 0], the operation is invoked exactly
    [N + 1] times with [N] pauses, the last event of the run is the
    last call (no pause follows it), and the executor throws a new error
    whose message contains [N] and the message of the last error. *)
Theorem retries_exhausted :
  (0 <= maxRetries_of options)%Z ->
  Forall (fun c => exists e, c = inr e /\ isRetryable e = true)
         (calls (events r)) ->
  Z.of_nat (invocations r) = (maxRetries_of options + 1)%Z
  /\ Z.of_nat (List.length (waits (events r))) = maxRetries_of options
  /\ exists pre e m,
       events r = (pre ++ [Called (inr e)])%list
       /\ message e = Some m
       /\ result r
          = Threw (new_Error (max_retries_message (maxRetries_of options) e))
       /\ new_Error (max_retries_message (maxRetries_of options) e) <> e
       /\ Str.contains (max_retries_message (maxRetries_of options) e)
                       (Str.of_Z (maxRetries_of options))
       /\ Str.contains (max_retries_message (maxRetries_of options) e) m.
Proof.
  intros Hpos. rewrite retryWithBackoff_attempts. intros Hall.
  destruct (loop_all_retryable _ _ _ _ _ _ _ _ _ Hpos Hall)
    as (Hlen & pre & e & Hev & Hres & _).
  assert (Hw := loop_waits_count fn sleep _ (maxDelay_of options)
                  (backoffMultiplier_of options) _ (initialDelay_of options)
                  None w Hpos).
  cbv zeta in Hw. unfold invocations.
  split; [lia | split; [lia |]].
  assert (Hre : isRetryable e = true).
  { rewrite Hev, calls_app in Hall. apply Forall_app in Hall as [_ Hall].
    inversion Hall as [|c l (e' & He' & Hre') _]. congruence. }
  rewrite isRetryable_message in Hre.
  destruct (message e) as [m|] eqn:Hm; [| discriminate].
  exists pre, e, m. repeat split; try assumption.
  - apply max_retries_error_fresh.
  - apply max_retries_message_contains.
  - destruct (max_retries_message_contains (maxRetries_of options) e) as [_ H].
    now rewrite Hm in H.
Qed.

(** C4.  A call that rejects with a non-retryable error is the last
    event of the run: no pause and no further call follow it, and the
    executor rethrows that very error.  When it is the first call, the
    run consists of this one invocation. *)
Theorem nonretryable_propagates (pre post : list (event T)) (e : Error) :
  events r = (pre ++ Called (inr e) :: post)%list ->
  isRetryable e = false ->
  post = []
  /\ result r = Threw e
  /\ exit_at r = ThrowNonRetryable
  /\ invocations r = S (List.length (calls pre))
  /\ waits (events r) = waits pre
  /\ (pre = [] -> invocations r = 1%nat /\ waits (events r) = []).
Proof.
  rewrite retryWithBackoff_attempts. intros Hev Hne.
  destruct (loop_nonretryable_stops _ _ _ _ _ _ _ _ _ _ _ _ Hev Hne)
    as (-> & Hres & Hexit).
  unfold invocations. rewrite Hev, calls_app, waits_app, length_app. simpl.
  rewrite app_nil_r.
  split; [reflexivity |]. split; [exact Hres |]. split; [exact Hexit |].
  split; [lia |]. split; [reflexivity |].
  intros ->. split; reflexivity.
Qed.

(** C10.  A retry hint in the message of an error that contains none of
    the five retryable substrings changes nothing: the error is not
    retryable, the call that rejected with it is the last event of the
    run (no pause, no further attempt), and the executor rethrows it. *)
Theorem hint_ignored_when_not_retryable
  (pre post : list (event T)) (e : Error) (m : string) :
  events r = (pre ++ Called (inr e) :: post)%list ->
  message e = Some m ->
  has_retry_hint m ->
  ~ Str.contains m "429" ->
  ~ Str.contains m "quota" ->
  ~ Str.contains m "rate limit" ->
  ~ Str.contains m "500" ->
  ~ Str.contains m "503" ->
  isRetryable e = false
  /\ post = []
  /\ result r = Threw e
  /\ exit_at r = ThrowNonRetryable
  /\ invocations r = S (List.length (calls pre))
  /\ waits (events r) = waits pre.
Proof.
  intros Hev Hm _ H429 Hquota Hrate H500 H503.
  assert (Hne : isRetryable e = false).
  { destruct (isRetryable e) eqn:Hre; [| reflexivity].
    apply retryable_message_contains in Hre as (m' & Hm' & Hc).
    assert (m' = m) as -> by congruence. tauto. }
  rewrite retryWithBackoff_attempts in *.
  destruct (loop_nonretryable_stops _ _ _ _ _ _ _ _ _ _ _ _ Hev Hne)
    as (-> & Hres & Hexit).
  unfold invocations. rewrite Hev, calls_app, waits_app, length_app. simpl.
  rewrite app_nil_r.
  split; [exact Hne |]. split; [reflexivity |]. split; [exact Hres |].
  split; [exact Hexit |]. split; [lia | reflexivity].
Qed.

(** C6.  When the call of index [i] rejects with an error without a retry
    hint, the pause [wt], which follows the call and its notice at once,
    is the delay state of index [i] capped at [maxDelay], which from the
    second pause on is the delay state itself; the delay state starts at [initialDelay] and becomes
    [min(delay * backoffMultiplier, maxDelay)] at each retry; every pause
    of the run is at most [maxDelay] (or NaN, when computed from NaN).
    With [initialDelay = 1000], [backoffMultiplier = 2] and
    [maxDelay = 5000] the first four pauses are 1000, 2000, 4000 and
    5000. *)
Theorem backoff_sets_wait (i : nat) (e : Error) (wt : Num.number) :
  nth_error (calls (events r)) i = Some (inr e) ->
  nth_error (waits (events r)) i = Some wt ->
  retryAfterMatch e = None ->
  wt = Num.Math_min (delay_at options i) (maxDelay_of options)
  /\ (exists before k later,
        events r
        = (before ++ Called (inr e)
                  :: Logged k (maxRetries_of options) wt
                            (option_map (substring 0 100) (message e))
                  :: Slept wt :: later)%list
        /\ List.length (calls before) = i)
  /\ ((0 < i)%nat -> wt = delay_at options i)
  /\ delay_at options 0 = initialDelay_of options
  /\ (forall k, delay_at options (S k)
                = Num.Math_min
                    (Num.mul (delay_at options k)
                             (backoffMultiplier_of options))
                    (maxDelay_of options))
  /\ Forall (fun x => x = Num.NaN \/ Num.leb x (maxDelay_of options) = true)
            (waits (events r))
  /\ (initialDelay_of options = Num.of_Z 1000 ->
      backoffMultiplier_of options = Num.of_Z 2 ->
      maxDelay_of options = Num.of_Z 5000 ->
      map (fun k => Num.Math_min (delay_at options k) (maxDelay_of options))
          [0; 1; 2; 3]%nat
      = [Num.of_Z 1000; Num.of_Z 2000; Num.of_Z 4000; Num.of_Z 5000]).
Proof.
  rewrite retryWithBackoff_attempts. intros Hc Hw Hg.
  assert (Hwt := loop_wait_schedule _ _ _ _ _ _ _ _ _ _ _ _ Hc Hw).
  unfold waitTime in Hwt. rewrite Hg in Hwt.
  split; [exact Hwt |]. split.
  { destruct (loop_wait_follows_call _ _ _ _ _ _ _ _ _ _ _ Hw)
      as (before & e0 & k & later & Hev & Hc0 & Hlen).
    assert (e0 = e) as -> by congruence.
    exists before, k, later. auto. }
  split.
  { intros Hpos. rewrite Hwt. destruct i as [|i]; [lia |].
    unfold delay_at. simpl. unfold nextDelay at 1 3. apply Math_min_idem. }
  split; [reflexivity |]. split; [reflexivity |].
  split; [apply loop_waits_le |].
  intros Hi Hb Hm. unfold delay_at. rewrite Hi, Hb, Hm.
  vm_compute. reflexivity.
Qed.


(** C9.  With an operation that fulfils every call with [v] and a
    configuration whose [maxRetries] is not negative, two runs, started
    in any two worlds, both return [v] after one invocation and no
    pause; this holds in particular of a second run started in the world
    the first one left. *)
Theorem always_succeeding_runs_agree (v : T) (w' : W) :
  (0 <= maxRetries_of options)%Z ->
  (forall x, fst (fn x) = inl v) ->
  result r = Returned v
  /\ result (retryWithBackoff fn sleep options w') = Returned v
  /\ result (retryWithBackoff fn sleep options (world r)) = Returned v
  /\ events r = [Called (inl v)]
  /\ events (retryWithBackoff fn sleep options w') = [Called (inl v)]
  /\ events (retryWithBackoff fn sleep options (world r)) = [Called (inl v)]
  /\ invocations r = 1%nat
  /\ waits (events r) = [].
Proof.
  intros Hpos Hfn.
  assert (Hrun : forall x,
             retryWithBackoff fn sleep options x
             = mkRun [Called (inl v)] (Returned v) ReturnValue (snd (fn x))).
  { intros x. rewrite retryWithBackoff_attempts, attempts_step.
    destruct (Z_le_dec 0 (maxRetries_of options)); [| lia].
    specialize (Hfn x). destruct (fn x) as [[v'|e] x1]; simpl in *.
    - congruence.
    - discriminate. }
  rewrite !Hrun. unfold invocations. simpl. repeat split.
Qed.

End Claims.

(** ** Scripted operations *)

(** An operation that rejects with the retryable errors [es], one per
    call, and then fulfils with [v] is called [length es + 1] times, with
    a pause after each error, and the executor returns [v], provided the
    errors are no more than [maxRetries]. *)
Lemma scripted_loop_succeeds {T : Type} (final : Error) (v : T)
  (tail : list (T + Error)) (maxRetries : Z)
  (maxDelay backoffMultiplier : Num.number)
  (es : list Error) :
  Forall (fun e => isRetryable e = true) es ->
  forall attempt delay lastError,
    (attempt + Z.of_nat (List.length es) <= maxRetries)%Z ->
    let r := attempts (scripted final) idle maxRetries maxDelay
                      backoffMultiplier attempt delay lastError
                      (List.map inr es ++ inl v :: tail)%list in
    result r = Returned v
    /\ calls (events r) = (List.map inr es ++ [inl v])%list
    /\ List.length (waits (events r)) = List.length es
    /\ world r = tail.
Proof.
  induction 1 as [|e es Hre Hall IH]; intros attempt delay lastError Hle;
    cbv zeta; rewrite attempts_step;
    (destruct (Z_le_dec attempt maxRetries) as [_|Hgt];
     [| simpl in *; lia]); simpl.
  - auto.
  - rewrite Hre.
    destruct (Z.eqb_spec attempt maxRetries) as [->|Hne];
      [simpl in Hle; lia |].
    change (idle (waitTime delay maxDelay e)
                 (List.map inr es ++ inl v :: tail)%list)
      with (List.map inr es ++ inl v :: tail)%list.
    destruct (IH (attempt + 1)%Z
                 (nextDelay delay backoffMultiplier maxDelay) (Some e))
      as (Hres & Hcalls & Hwaits & Hworld); [simpl in Hle; lia |].
    simpl. rewrite Hcalls, Hwaits. auto.
Qed.

Lemma scripted_succeeds {T : Type} (final : Error) (v : T)
  (tail : list (T + Error)) (options : option RetryOptions.t)
  (es : list Error) :
  Forall (fun e => isRetryable e = true) es ->
  (Z.of_nat (List.length es) <= maxRetries_of options)%Z ->
  let r := retryWithBackoff (scripted final) idle options
                            (List.map inr es ++ inl v :: tail)%list in
  result r = Returned v
  /\ invocations r = S (List.length es)
  /\ List.length (waits (events r)) = List.length es
  /\ world r = tail.
Proof.
  intros Hall Hle. cbv zeta. rewrite retryWithBackoff_attempts.
  destruct (scripted_loop_succeeds final v tail (maxRetries_of options)
              (maxDelay_of options) (backoffMultiplier_of options) es Hall
              0 (initialDelay_of options) None Hle)
    as (Hres & Hcalls & Hwaits & Hworld).
  unfold invocations. rewrite Hcalls, length_app, length_map. simpl.
  repeat split; try assumption. lia.
Qed.

(** ** The statements on sample runs *)

Lemma fallback_unreachable_witness :
  (0 <= maxRetries_of None)%Z
  /\ exit_at (retryWithBackoff (always_fails "503 Service Unavailable")
                idle None tt) <> ThrowAfterLoop.
Proof.
  assert (H : (0 <= maxRetries_of None)%Z) by (vm_compute; discriminate).
  split; [exact H |].
  exact (proj1 (fallback_unreachable
                  (always_fails "503 Service Unavailable") idle None tt H)).
Defined.

(** An operation that always answers 503, with [maxRetries = 3]. *)
Lemma retries_exhausted_witness :
  (0 <= 3)%Z
  /\ Forall (fun c => exists e, c = inr e /\ isRetryable e = true)
            (calls (events
                      (retryWithBackoff
                         (always_fails "503 Service Unavailable") idle
                         (Some (RetryOptions.make (Some 3%Z) None None None))
                         tt)))
  /\ Z.of_nat (invocations
                 (retryWithBackoff
                    (always_fails "503 Service Unavailable") idle
                    (Some (RetryOptions.make (Some 3%Z) None None None)) tt))
     = 4%Z.
Proof.
  assert (H : (0 <= 3)%Z) by (vm_compute; discriminate).
  assert (Hcalls :
            calls (events
                     (retryWithBackoff
                        (always_fails "503 Service Unavailable") idle
                        (Some (RetryOptions.make (Some 3%Z) None None None))
                        tt))
            = repeat (inr (new_Error "503 Service Unavailable")) 4)
    by (vm_compute; reflexivity).
  assert (Hall :
            Forall (fun c => exists e, c = inr e /\ isRetryable e = true)
                   (calls (events
                             (retryWithBackoff
                                (always_fails "503 Service Unavailable") idle
                                (Some (RetryOptions.make (Some 3%Z)
                                         None None None))
                                tt)))).
  { rewrite Hcalls. simpl.
    repeat constructor; eexists; split; reflexivity. }
  split; [exact H |]. split; [exact Hall |].
  exact (proj1 (retries_exhausted
                  (always_fails "503 Service Unavailable") idle
                  (Some (RetryOptions.make (Some 3%Z) None None None)) tt
                  H Hall)).
Defined.

(** An operation that always answers "permission denied". *)
Lemma nonretryable_propagates_witness :
  events (retryWithBackoff (always_fails "permission denied") idle None tt)
  = ([] ++ Called (inr (new_Error "permission denied")) :: [])%list
  /\ isRetryable (new_Error "permission denied") = false
  /\ result (retryWithBackoff (always_fails "permission denied") idle None tt)
     = Threw (new_Error "permission denied").
Proof.
  assert (Hev :
            events (retryWithBackoff (always_fails "permission denied")
                      idle None tt)
            = ([] ++ Called (inr (new_Error "permission denied")) :: [])%list)
    by (vm_compute; reflexivity).
  assert (Hne : isRetryable (new_Error "permission denied") = false)
    by reflexivity.
  split; [exact Hev |]. split; [exact Hne |].
  exact (proj1 (proj2 (nonretryable_propagates
                         (always_fails "permission denied") idle None tt
                         [] [] (new_Error "permission denied") Hev Hne))).
Defined.

(** A message with a hint and none of the retryable substrings. *)
Lemma hint_ignored_when_not_retryable_witness :
  has_retry_hint "please retry in 5 seconds"
  /\ isRetryable (new_Error "please retry in 5 seconds") = false
  /\ waits (events (retryWithBackoff
                      (always_fails "please retry in 5 seconds") idle None tt))
     = [].
Proof.
  assert (Hev :
            events (retryWithBackoff
                      (always_fails "please retry in 5 seconds") idle None tt)
            = ([] ++ Called (inr (new_Error "please retry in 5 seconds"))
                  :: [])%list)
    by (vm_compute; reflexivity).
  assert (Hhint : has_retry_hint "please retry in 5 seconds").
  { exists "please ", "retry in ", "5"%char, " seconds".
    repeat split; reflexivity. }
  assert (Hnone : forall pat,
             Str.includes "please retry in 5 seconds" pat = false ->
             ~ Str.contains "please retry in 5 seconds" pat).
  { intros pat Hpat Hc. apply includes_contains in Hc. congruence. }
  destruct (hint_ignored_when_not_retryable
              (always_fails "please retry in 5 seconds") idle None tt
              [] [] (new_Error "please retry in 5 seconds")
              "please retry in 5 seconds" Hev eq_refl Hhint
              (Hnone "429" eq_refl) (Hnone "quota" eq_refl)
              (Hnone "rate limit" eq_refl) (Hnone "500" eq_refl)
              (Hnone "503" eq_refl))
    as (Hne & _ & _ & _ & _ & Hw).
  split; [exact Hhint |]. split; [exact Hne | exact Hw].
Defined.

(** Five answers 503 in a row under [maxRetries = 4],
    [initialDelay = 1000], [maxDelay = 5000], [backoffMultiplier = 2]:
    the pauses are 1000, 2000, 4000 and 5000. *)
Lemma backoff_sets_wait_witness :
  waits (events
           (retryWithBackoff (always_fails "503 Service Unavailable") idle
              (Some (RetryOptions.make (Some 4%Z) (Some (Num.of_Z 1000))
                       (Some (Num.of_Z 5000)) (Some (Num.of_Z 2))))
              tt))
  = [Num.of_Z 1000; Num.of_Z 2000; Num.of_Z 4000; Num.of_Z 5000]
  /\ retryAfterMatch (new_Error "503 Service Unavailable") = None
  /\ Num.of_Z 5000
     = Num.Math_min (delay_at
               (Some (RetryOptions.make (Some 4%Z) (Some (Num.of_Z 1000))
                        (Some (Num.of_Z 5000)) (Some (Num.of_Z 2))))
               3)
            (Num.of_Z 5000).
Proof.
  assert (Hws :
            waits (events
                     (retryWithBackoff
                        (always_fails "503 Service Unavailable") idle
                        (Some (RetryOptions.make (Some 4%Z)
                                 (Some (Num.of_Z 1000))
                                 (Some (Num.of_Z 5000)) (Some (Num.of_Z 2))))
                        tt))
            = [Num.of_Z 1000; Num.of_Z 2000; Num.of_Z 4000; Num.of_Z 5000])
    by (vm_compute; reflexivity).
  assert (Hc :
            nth_error
              (calls (events
                        (retryWithBackoff
                           (always_fails "503 Service Unavailable") idle
                           (Some (RetryOptions.make (Some 4%Z)
                                    (Some (Num.of_Z 1000))
                                    (Some (Num.of_Z 5000))
                                    (Some (Num.of_Z 2))))
                           tt)))
              3
            = Some (inr (new_Error "503 Service Unavailable")))
    by (vm_compute; reflexivity).
  assert (Hw :
            nth_error
              (waits (events
                        (retryWithBackoff
                           (always_fails "503 Service Unavailable") idle
                           (Some (RetryOptions.make (Some 4%Z)
                                    (Some (Num.of_Z 1000))
                                    (Some (Num.of_Z 5000))
                                    (Some (Num.of_Z 2))))
                           tt)))
              3
            = Some (Num.of_Z 5000))
    by (vm_compute; reflexivity).
  assert (Hg : retryAfterMatch (new_Error "503 Service Unavailable") = None)
    by (vm_compute; reflexivity).
  split; [exact Hws |]. split; [exact Hg |].
  exact (proj1 (backoff_sets_wait
                  (always_fails "503 Service Unavailable") idle
                  (Some (RetryOptions.make (Some 4%Z) (Some (Num.of_Z 1000))
                           (Some (Num.of_Z 5000)) (Some (Num.of_Z 2))))
                  tt 3 (new_Error "503 Service Unavailable") (Num.of_Z 5000)
                  Hc Hw Hg)).
Defined.

(** An operation that always returns 42, run twice. *)
Lemma always_succeeding_runs_agree_witness :
  (0 <= maxRetries_of None)%Z
  /\ (forall x, fst (always_succeeds 42 x) = inl 42%nat)
  /\ result (retryWithBackoff (always_succeeds 42) idle None tt)
     = Returned 42%nat.
Proof.
  assert (H : (0 <= maxRetries_of None)%Z) by (vm_compute; discriminate).
  assert (Hfn : forall x, fst (always_succeeds 42 x) = inl 42%nat)
    by (intros x; reflexivity).
  split; [exact H |]. split; [exact Hfn |].
  exact (proj1 (always_succeeding_runs_agree
                  (always_succeeds 42) idle None tt 42%nat tt H Hfn)).
Defined.

(** * Further properties *)

(** ** The shape of a run *)

Lemma loop_shape {T W : Type} (fn : W -> (T + Error) * W)
  (sleep : Num.number -> W -> W) (maxRetries : Z)
  (maxDelay backoffMultiplier : Num.number) attempt delay lastError w :
  (attempt <= maxRetries)%Z ->
  exists xs last,
    events (attempts fn sleep maxRetries maxDelay backoffMultiplier
                     attempt delay lastError w)
    = (retried_attempts maxRetries (attempt + 1) xs ++ [Called last])%list
    /\ Forall (fun x => isRetryable (fst x) = true) xs
    /\ (attempt + Z.of_nat (List.length xs) <= maxRetries)%Z.
Proof.
  revert attempt delay lastError w.
  apply (attempts_ind fn sleep maxRetries maxDelay backoffMultiplier
           (fun attempt _ _ _ r =>
              (attempt <= maxRetries)%Z ->
              exists xs last,
                events r
                = (retried_attempts maxRetries (attempt + 1) xs
                   ++ [Called last])%list
                /\ Forall (fun x => isRetryable (fst x) = true) xs
                /\ (attempt + Z.of_nat (List.length xs) <= maxRetries)%Z)).
  - intros; lia.
  - intros attempt delay lastError w v w1 Hle Hfn _.
    exists [], (inl v). simpl. repeat split; [constructor | lia].
  - intros attempt delay lastError w error w1 Hle Hfn Hre _.
    exists [], (inr error). simpl. repeat split; [constructor | lia].
  - intros delay lastError w error w1 Hfn Hre _.
    exists [], (inr error). simpl. repeat split; [constructor | lia].
  - intros attempt delay lastError w error w1 r Hlt Hfn Hre Hr IH _.
    destruct IH as (xs & last & Hev & Hall & Hlen); [lia |].
    exists ((error, waitTime delay maxDelay error) :: xs), last.
    simpl. rewrite Hev. repeat split.
    + constructor; [exact Hre | exact Hall].
    + simpl List.length. lia.
Qed.

(** X1.  Under a configuration whose [maxRetries] is not negative, a run
    is a sequence of retried attempts, each one a call that rejected
    with a retryable error, the notice numbered from 1 upwards and the
    pause, followed by one last call and nothing else; the retried
    attempts are at most [maxRetries]. *)
Theorem run_shape {T W : Type} (fn : W -> (T + Error) * W)
  (sleep : Num.number -> W -> W) (options : option RetryOptions.t) (w : W) :
  (0 <= maxRetries_of options)%Z ->
  exists xs last,
    events (retryWithBackoff fn sleep options w)
    = (retried_attempts (maxRetries_of options) 1 xs ++ [Called last])%list
    /\ Forall (fun x => isRetryable (fst x) = true) xs
    /\ (Z.of_nat (List.length xs) <= maxRetries_of options)%Z
    /\ invocations (retryWithBackoff fn sleep options w)
       = S (List.length xs)
    /\ waits (events (retryWithBackoff fn sleep options w))
       = List.map snd xs.
Proof.
  intros Hpos. rewrite retryWithBackoff_attempts.
  destruct (loop_shape fn sleep (maxRetries_of options) (maxDelay_of options)
              (backoffMultiplier_of options) 0 (initialDelay_of options)
              None w Hpos) as (xs & last & Hev & Hall & Hlen).
  exists xs, last. unfold invocations. rewrite Hev.
  split; [reflexivity |]. split; [exact Hall |]. split; [lia |].
  rewrite calls_app, waits_app, length_app. simpl.
  assert (Hcw : forall k,
             List.length (calls (retried_attempts (T := T)
                                   (maxRetries_of options) k xs))
             = List.length xs
             /\ waits (retried_attempts (T := T)
                         (maxRetries_of options) k xs)
                = List.map snd xs).
  { clear. induction xs as [|x xs IH]; intros k; simpl; [auto |].
    destruct (IH (k + 1)%Z) as [Hc Hw]. rewrite Hc, Hw. auto. }
  destruct (Hcw 1%Z) as [Hc Hw]. rewrite Hc, Hw, app_nil_r.
  split; [lia | reflexivity].
Qed.

(** ** Leaving the function *)

(** A message that embeds a message with a retryable substring has that
    substring too. *)
Lemma contains_wrap (a m b pat : string) :
  Str.contains m pat -> Str.contains (a ++ m ++ b) pat.
Proof.
  intros (x & y & ->). exists (a ++ x), (y ++ b).
  now rewrite !string_app_assoc.
Qed.

(** X4.  The classification survives wrapping: an error whose message
    embeds, anywhere, the message of a retryable error is retryable. *)
Theorem retryable_under_wrapping (e e' : Error) (a m b : string) :
  isRetryable e = true ->
  message e = Some m ->
  message e' = Some (a ++ m ++ b) ->
  isRetryable e' = true.
Proof.
  intros Hre Hm Hm'.
  apply retryable_message_contains in Hre as (m0 & Hm0 & Hc).
  assert (m0 = m) as -> by congruence.
  apply retryable_message_contains. exists (a ++ m ++ b).
  split; [exact Hm' |].
  destruct Hc as [H | [H | [H | [H | H]]]];
    eauto 6 using contains_wrap.
Qed.

(** The error of line 47 is retryable, as the error it reports is. *)
Lemma max_retries_error_retryable (n : Z) (e : Error) :
  isRetryable e = true ->
  isRetryable (new_Error (max_retries_message n e)) = true.
Proof.
  intros Hre.
  apply retryable_message_contains in Hre as (m & Hm & Hc).
  apply retryable_message_contains.
  exists (("Max retries (" ++ Str.of_Z n ++ ") reached. Last error: ")
          ++ m ++ "").
  split.
  - unfold max_retries_message, new_Error. simpl. rewrite Hm. simpl.
    now rewrite string_app_nil_r, !string_app_assoc.
  - destruct Hc as [H | [H | [H | [H | H]]]];
      eauto 6 using contains_wrap.
Qed.

(** X3.  The error a run throws is retryable exactly when the run gave
    up after its last permitted attempt: the error of line 47 carries
    the retryable text of the error it reports, the error rethrown by
    line 42 is not retryable, and neither is the fallback error.  An
    executor wrapped around another one thus retries its exhaustion. *)
Theorem thrown_retryable_iff_exhausted {T W : Type}
  (fn : W -> (T + Error) * W) (sleep : Num.number -> W -> W)
  (options : option RetryOptions.t) (w : W) (e' : Error) :
  result (retryWithBackoff fn sleep options w) = Threw e' ->
  (isRetryable e' = true
   <-> exit_at (retryWithBackoff fn sleep options w) = ThrowMaxRetries).
Proof.
  destruct (Z_lt_le_dec (maxRetries_of options) 0) as [Hneg | Hpos].
  - rewrite (fallback_reached_when_negative fn sleep options w Hneg). simpl.
    intros H. inversion H; subst e'.
    split; [vm_compute | ]; discriminate.
  - rewrite retryWithBackoff_attempts.
    destruct (loop_exit_cases fn sleep (maxRetries_of options)
                (maxDelay_of options) (backoffMultiplier_of options)
                0 (initialDelay_of options) None w Hpos)
      as (pre & last & _ & Hlast).
    destruct last as [v | e].
    + destruct Hlast as [Hres _]. rewrite Hres. discriminate.
    + destruct Hlast as [(Hne & Hres & Hexit) | (Hre & Hres & Hexit)];
        rewrite Hres, Hexit; intros H; inversion H; subst e'.
      * split; [congruence | discriminate].
      * split; [reflexivity | intros _].
        now apply max_retries_error_retryable.
Qed.

Lemma thrown_retryable_iff_exhausted_witness :
  result (retryWithBackoff (always_fails "503 Service Unavailable") idle
            (Some (RetryOptions.make (Some 1%Z) None None None)) tt)
  = Threw (new_Error
             "Max retries (1) reached. Last error: 503 Service Unavailable")
  /\ (isRetryable
        (new_Error
           "Max retries (1) reached. Last error: 503 Service Unavailable")
      = true
      <-> exit_at (retryWithBackoff (always_fails "503 Service Unavailable")
                     idle
                     (Some (RetryOptions.make (Some 1%Z) None None None)) tt)
          = ThrowMaxRetries).
Proof.
  assert (H : result (retryWithBackoff
                        (always_fails "503 Service Unavailable") idle
                        (Some (RetryOptions.make (Some 1%Z) None None None))
                        tt)
              = Threw (new_Error
                         "Max retries (1) reached. Last error: 503 Service Unavailable"))
    by (vm_compute; reflexivity).
  split; [exact H |].
  exact (thrown_retryable_iff_exhausted
           (always_fails "503 Service Unavailable") idle
           (Some (RetryOptions.make (Some 1%Z) None None None)) tt _ H).
Defined.

Lemma retryable_under_wrapping_witness :
  isRetryable (new_Error "quota exceeded") = true
  /\ isRetryable (new_Error "upstream said: quota exceeded (try later)")
     = true.
Proof.
  assert (H : isRetryable (new_Error "quota exceeded") = true)
    by reflexivity.
  split; [exact H |].
  exact (retryable_under_wrapping
           (new_Error "quota exceeded")
           (new_Error "upstream said: quota exceeded (try later)")
           "upstream said: " "quota exceeded" " (try later)"
           H eq_refl eq_refl).
Defined.

(** ** The notices *)

(** [s.substring(0, n)] is the head of [s], of at most [n] characters,
    and [s] itself when [s] is no longer than that. *)
Lemma substring_head (n : nat) (s : string) :
  (exists t, s = substring 0 n s ++ t)
  /\ (String.length (substring 0 n s) <= n)%nat
  /\ ((String.length s <= n)%nat -> substring 0 n s = s).
Proof.
  revert s. induction n as [|n IH]; intros [|c s]; simpl.
  - split; [exists ""; reflexivity | split; [lia | reflexivity]].
  - split; [exists (String c s); reflexivity | split; [lia | lia]].
  - split; [exists ""; reflexivity | split; [lia | reflexivity]].
  - destruct (IH s) as ([t Ht] & Hlen & Hall).
    split; [exists t; congruence |].
    split; [lia |]. intros Hle. rewrite Hall by lia. reflexivity.
Qed.

Lemma loop_notices {T W : Type} (fn : W -> (T + Error) * W)
  (sleep : Num.number -> W -> W) (maxRetries : Z)
  (maxDelay backoffMultiplier : Num.number) attempt delay lastError w
  k mr wt x :
  In (Logged k mr wt x)
     (events (attempts fn sleep maxRetries maxDelay backoffMultiplier
                       attempt delay lastError w)) ->
  (attempt + 1 <= k <= maxRetries)%Z
  /\ mr = maxRetries
  /\ In (Slept wt)
        (events (attempts fn sleep maxRetries maxDelay backoffMultiplier
                          attempt delay lastError w))
  /\ exists e m,
       In (Called (inr e))
          (events (attempts fn sleep maxRetries maxDelay backoffMultiplier
                            attempt delay lastError w))
       /\ isRetryable e = true
       /\ message e = Some m
       /\ x = Some (substring 0 100 m).
Proof.
  revert attempt delay lastError w.
  apply (attempts_ind fn sleep maxRetries maxDelay backoffMultiplier
           (fun attempt _ _ _ r =>
              In (Logged k mr wt x) (events r) ->
              (attempt + 1 <= k <= maxRetries)%Z
              /\ mr = maxRetries
              /\ In (Slept wt) (events r)
              /\ exists e m,
                   In (Called (inr e)) (events r)
                   /\ isRetryable e = true
                   /\ message e = Some m
                   /\ x = Some (substring 0 100 m))); simpl.
  - intros; contradiction.
  - intros attempt delay lastError w v w1 _ _ [H | []]. discriminate.
  - intros attempt delay lastError w error w1 _ _ _ [H | []]. discriminate.
  - intros delay lastError w error w1 _ _ [H | []]. discriminate.
  - intros attempt delay lastError w error w1 r Hlt _ Hre _ IH
      [H | [H | [H | H]]]; try discriminate.
    + inversion H; subst.
      destruct (proj1 (retryable_message_contains error) Hre)
        as (m & Hm & _).
      split; [lia |]. split; [reflexivity |]. split; [auto |].
      exists error, m. rewrite Hm. auto.
    + destruct (IH H) as (Hk & Hmr & Hs & e & m & Hc & He & Hm & Hx).
      split; [lia |]. split; [exact Hmr |]. split; [auto |].
      exists e, m. auto.
Qed.

(** X5.  Every notice of a run reports an attempt number between 1 and
    [maxRetries], the configured [maxRetries] and the length of a pause
    of the run, and belongs to a retryable error that a call rejected
    with.  When the message of that error is ASCII text, the notice
    quotes its first 100 characters, the whole message when it is no
    longer than that. *)
Theorem notice_content {T W : Type} (fn : W -> (T + Error) * W)
  (sleep : Num.number -> W -> W) (options : option RetryOptions.t) (w : W)
  (k mr : Z) (wt : Num.number) (x : option string) :
  In (Logged k mr wt x) (events (retryWithBackoff fn sleep options w)) ->
  (1 <= k <= maxRetries_of options)%Z
  /\ mr = maxRetries_of options
  /\ In (Slept wt) (events (retryWithBackoff fn sleep options w))
  /\ exists e m,
       In (Called (inr e)) (events (retryWithBackoff fn sleep options w))
       /\ isRetryable e = true
       /\ message e = Some m
       /\ (is_ascii m = true ->
           exists s,
             x = Some s
             /\ (String.length s <= 100)%nat
             /\ (exists t, m = s ++ t)
             /\ ((String.length m <= 100)%nat -> s = m)).
Proof.
  rewrite retryWithBackoff_attempts. intros Hin.
  destruct (loop_notices _ _ _ _ _ _ _ _ _ _ _ _ _ Hin)
    as (Hk & Hmr & Hs & e & m & Hc & He & Hm & Hx).
  split; [lia |]. split; [exact Hmr |]. split; [exact Hs |].
  destruct (substring_head 100 m) as (Hpre & Hlen & Hall).
  exists e, m. repeat (split; [assumption |]).
  intros _. exists (substring 0 100 m). auto.
Qed.

Lemma notice_content_witness :
  In (Logged 1 5 (Num.of_Z 1000) (Some "429 Too Many Requests"))
     (events (retryWithBackoff (scripted (new_Error "script is over")) idle
                None [inr (new_Error "429 Too Many Requests"); inl 7%nat]))
  /\ (1 <= 1 <= maxRetries_of None)%Z.
Proof.
  assert (H : In (Logged 1 5 (Num.of_Z 1000) (Some "429 Too Many Requests"))
                 (events (retryWithBackoff
                            (scripted (new_Error "script is over")) idle None
                            [inr (new_Error "429 Too Many Requests");
                             inl 7%nat])))
    by (vm_compute; right; left; reflexivity).
  split; [exact H |].
  exact (proj1 (notice_content
                  (scripted (new_Error "script is over")) idle None
                  [inr (new_Error "429 Too Many Requests"); inl 7%nat]
                  1%Z 5%Z (Num.of_Z 1000) (Some "429 Too Many Requests") H)).
Defined.

(** ** Which hint is read *)

Lemma toLowerCase_app (a b : string) :
  Str.toLowerCase (a ++ b) = Str.toLowerCase a ++ Str.toLowerCase b.
Proof. induction a as [|c a IH]; simpl; [reflexivity | now rewrite IH]. Qed.

Lemma toLowerCase_length (s : string) :
  String.length (Str.toLowerCase s) = String.length s.
Proof. induction s as [|c s IH]; simpl; [reflexivity | now rewrite IH]. Qed.

(** Two ways of cutting one string in two: one cut comes first. *)
Lemma string_app_split (a b c d : string) :
  a ++ b = c ++ d ->
  (exists t, a = c ++ t /\ d = t ++ b)
  \/ (exists t, c = a ++ t /\ b = t ++ d).
Proof.
  revert c. induction a as [|x a IH]; intros c H; simpl in H.
  - right. exists c. auto.
  - destruct c as [|y c]; simpl in H.
    + left. exists (String x a). auto.
    + inversion H as [[Hxy Hrest]].
      destruct (IH c Hrest) as [(t & -> & ->) | (t & -> & ->)];
        [left | right]; exists t; auto.
Qed.

(** A digit is its own lower case. *)
Lemma digit_lower (d : ascii) :
  Str.is_digit d = true -> Str.lower_char d = d.
Proof.
  assert (Hall :
            forallb
              (fun d => implb (Str.is_digit d)
                              (Ascii.eqb (Str.lower_char d) d))
              (List.map ascii_of_nat (seq 0 256))
            = true) by (vm_compute; reflexivity).
  rewrite forallb_forall in Hall.
  specialize (Hall d (all_ascii_complete d)).
  intros Hd. rewrite Hd in Hall. now apply Ascii.eqb_eq in Hall.
Qed.

Lemma char_of_app (x y : string) (c : ascii) (s : string) :
  x ++ String c y = s -> In c (list_ascii_of_string s).
Proof.
  intros <-. induction x as [|a x IH]; simpl; auto.
Qed.

(** The words "retry in " hold no digit, however they are cased. *)
Lemma keyword_has_no_digit (t u : string) (d : ascii) :
  Str.toLowerCase (t ++ String d u) = "retry in " ->
  Str.is_digit d = false.
Proof.
  rewrite toLowerCase_app. simpl. intros H.
  destruct (Str.is_digit d) eqn:Hd; [| reflexivity].
  rewrite (digit_lower d Hd) in H.
  apply char_of_app in H. simpl in H.
  repeat (destruct H as [H | H]; [subst d; discriminate Hd |]).
  contradiction.
Qed.

Lemma has_retry_hint_cons (c : ascii) (s : string) :
  has_retry_hint s -> has_retry_hint (String c s).
Proof.
  intros (pre & kw & d & rest & -> & Hkw & Hd).
  exists (String c pre), kw, d, rest. auto.
Qed.

(** The expression does not match at a position before the words
    "retry in " when the text up to these words shows no hint. *)
Lemma match_here_none_before (p kw tail : string) :
  p <> "" ->
  ~ has_retry_hint p ->
  Str.toLowerCase kw = "retry in " ->
  Str.match_here (p ++ kw ++ tail) = None.
Proof.
  intros Hp Hno Hkw.
  destruct (Str.match_here (p ++ kw ++ tail)) as [g|] eqn:Hm;
    [exfalso | reflexivity].
  destruct (proj1 (match_here_some _) (ex_intro _ g Hm))
    as (kw' & d & rest' & Heq & Hkw' & Hd).
  assert (Hlen : String.length kw = 9%nat)
    by (rewrite <- toLowerCase_length, Hkw; reflexivity).
  assert (Hlen' : String.length kw' = 9%nat)
    by (rewrite <- toLowerCase_length, Hkw'; reflexivity).
  destruct (string_app_split _ _ _ _ Heq) as [(t & Hpt & Ht) | (t & Hk & Ht)].
  - destruct t as [|x t]; simpl in Ht.
    + destruct kw as [|k kw]; [discriminate |].
      simpl in Ht. inversion Ht; subst k.
      pose proof (keyword_has_no_digit "" kw d Hkw). congruence.
    + inversion Ht; subst x. apply Hno.
      exists "", kw', d, t. auto.
  - destruct (string_app_split _ _ _ _ Ht) as [(u & Hku & Hu) | (u & Htu & Hu)].
    + destruct u as [|x u]; simpl in Hu.
      * rewrite string_app_nil_r in Hku. subst t kw'.
        rewrite string_length_app, Hlen in Hlen'.
        destruct p; [contradiction | simpl in Hlen'; lia].
      * inversion Hu; subst x. subst kw.
        pose proof (keyword_has_no_digit t u d Hkw). congruence.
    + subst t kw'. rewrite !string_length_app, Hlen in Hlen'.
      destruct p; [contradiction | simpl in Hlen'; lia].
Qed.

Lemma all_digits_app (a b : string) :
  Str.all_digits (a ++ b) = Str.all_digits a && Str.all_digits b.
Proof.
  induction a as [|c a IH]; simpl; [reflexivity |].
  now rewrite IH, andb_assoc.
Qed.

(** The number part of the expression reads a decimal numeral whole,
    when nothing that follows could continue it. *)
Lemma match_number_complete (num rest : string) :
  Str.decimal num ->
  Str.no_leading_digit rest ->
  (Str.all_digits num = true -> no_fraction_follows rest) ->
  Str.match_number (num ++ rest) = Some num.
Proof.
  intros (int & frac & Hne & Hint & Hfrac & Hnum) Hrest Hfol.
  unfold Str.match_number.
  destruct Hnum as [-> | (Hfne & ->)].
  - rewrite (span_digits_app int rest Hint Hrest).
    destruct int as [|c int]; [contradiction |].
    destruct rest as [|x rest]; [reflexivity |].
    destruct (Ascii.eqb_spec x "."%char) as [-> | Hx].
    + pose proof (Hfol Hint rest eq_refl) as Hnd.
      pose proof (span_digits_app "" rest eq_refl Hnd) as Hs.
      simpl in Hs. now rewrite Hs.
    + destruct x as [[] [] [] [] [] [] [] []]; try reflexivity.
      now contradiction Hx.
  - rewrite !string_app_assoc.
    rewrite (span_digits_app int ("." ++ frac ++ rest) Hint eq_refl).
    destruct int as [|c int]; [contradiction |].
    simpl. rewrite (span_digits_app frac rest Hfrac Hrest).
    destruct frac; [contradiction | reflexivity].
Qed.

Lemma match_retry_in_unfold (s : string) :
  Str.match_retry_in s
  = match Str.match_here s with
    | Some g => Some g
    | None =>
        match s with
        | EmptyString => None
        | String _ s' => Str.match_retry_in s'
        end
    end.
Proof. destruct s; reflexivity. Qed.

(** X6.  The first hint of a message is the one that is read: when the
    text before the words "retry in " shows no hint and these words are
    followed by a decimal numeral that nothing continues (no further
    digit and, after a numeral without a dot, no dot and digit), the
    capture of the expression is that numeral. *)
Theorem first_hint_is_captured (pre kw num rest : string) :
  ~ has_retry_hint pre ->
  Str.toLowerCase kw = "retry in " ->
  Str.decimal num ->
  Str.no_leading_digit rest ->
  (Str.all_digits num = true -> no_fraction_follows rest) ->
  Str.match_retry_in (pre ++ kw ++ num ++ rest) = Some num.
Proof.
  intros Hno Hkw Hdec Hrest Hfol.
  assert (Hhere : Str.match_here (kw ++ num ++ rest) = Some num).
  { unfold Str.match_here.
    assert (Hlit : Str.match_literal_i "retry in " (kw ++ num ++ rest)
                   = Some (num ++ rest))
      by (apply match_literal_i_spec; exists kw; auto).
    rewrite Hlit. now apply match_number_complete. }
  induction pre as [|c pre IH]; rewrite match_retry_in_unfold.
  - simpl. now rewrite Hhere.
  - assert (Hnone : Str.match_here (String c pre ++ kw ++ num ++ rest) = None)
      by (apply match_here_none_before; [discriminate | exact Hno | exact Hkw]).
    rewrite Hnone. simpl. apply IH.
    intros H. apply Hno. now apply has_retry_hint_cons.
Qed.

Lemma first_hint_is_captured_witness :
  ~ has_retry_hint "quota hit (retry later); "
  /\ Str.decimal "37.5"
  /\ Str.match_retry_in
       ("quota hit (retry later); " ++ "Retry in " ++ "37.5"
        ++ "s, or retry in 90")
     = Some "37.5".
Proof.
  assert (Hno : ~ has_retry_hint "quota hit (retry later); ").
  { intros H. apply retry_hint_present_iff in H as [g Hg].
    vm_compute in Hg. discriminate. }
  assert (Hdec : Str.decimal "37.5").
  { exists "37", "5". repeat split; try discriminate. right.
    split; [discriminate | reflexivity]. }
  split; [exact Hno |]. split; [exact Hdec |].
  apply (first_hint_is_captured
           "quota hit (retry later); " "Retry in " "37.5"
           "s, or retry in 90" Hno eq_refl Hdec eq_refl).
  intros H. discriminate H.
Defined.

(** What follows the capture of the number part cannot continue it. *)
Lemma match_number_capture_greedy (s g : string) :
  Str.match_number s = Some g ->
  exists rest,
    s = g ++ rest
    /\ Str.no_leading_digit rest
    /\ (Str.all_digits g = true -> no_fraction_follows rest).
Proof.
  unfold Str.match_number.
  destruct (Str.span_digits s) as [int rest] eqn:Hspan.
  apply span_digits_spec in Hspan as (-> & Hint & Hrest).
  destruct int as [|c int]; [discriminate |].
  destruct rest as [|x rest].
  - intros H. inversion H; subst g. exists "".
    split; [reflexivity |]. split; [exact I |].
    intros _ t Ht. discriminate Ht.
  - destruct (Ascii.eqb_spec x "."%char) as [-> | Hx].
    + destruct (Str.span_digits rest) as [frac rest'] eqn:Hfrac.
      apply span_digits_spec in Hfrac as (-> & Hf & Hrest').
      destruct frac as [|f frac]; intros H; inversion H; subst g.
      * exists (String "." rest'). split; [reflexivity |].
        split; [reflexivity |].
        intros _ t Ht. inversion Ht; subst t. exact Hrest'.
      * exists rest'. split; [| split; [exact Hrest' |]].
        -- simpl. f_equal. now rewrite !string_app_assoc.
        -- intros Hall. exfalso.
           change (String c int ++ "." ++ String f frac)
             with (String c (int ++ "." ++ String f frac)) in Hall.
           simpl in Hall. rewrite all_digits_app in Hall. simpl in Hall.
           rewrite !andb_false_r in Hall. discriminate.
    + intros H.
      assert (Hg : Some (String c int) = Some g).
      { destruct x as [[] [] [] [] [] [] [] []]; try exact H.
        now contradiction Hx. }
      inversion Hg; subst g. exists (String x rest).
      split; [reflexivity |]. split; [exact Hrest |].
      intros _ t Ht. inversion Ht. contradiction.
Qed.

(** X7.  What the expression captures is the first hint of the message:
    a decimal numeral that stands right after the words "retry in " (in
    any mix of cases), with no hint in the text before these words, and
    taken whole: no digit follows it and, when it has no dot, no dot and
    digit either. *)
Theorem captured_hint_is_first (m g : string) :
  Str.match_retry_in m = Some g ->
  Str.decimal g
  /\ exists pre kw rest,
       m = pre ++ kw ++ g ++ rest
       /\ Str.toLowerCase kw = "retry in "
       /\ ~ has_retry_hint pre
       /\ Str.no_leading_digit rest
       /\ (Str.all_digits g = true -> no_fraction_follows rest).
Proof.
  induction m as [|c m IH]; rewrite match_retry_in_unfold.
  - simpl. discriminate.
  - destruct (Str.match_here (String c m)) as [g'|] eqn:Hhere.
    + intros H. inversion H; subst g'.
      pose proof Hhere as Hhere'. unfold Str.match_here in Hhere.
      destruct (Str.match_literal_i "retry in " (String c m))
        as [tail|] eqn:Hlit; [| discriminate].
      apply match_literal_i_spec in Hlit as (kw & Hs & Hkw).
      destruct (match_number_capture _ _ Hhere) as (Hdec & _).
      destruct (match_number_capture_greedy _ _ Hhere)
        as (rest & -> & Hrest & Hfol).
      split; [exact Hdec |]. exists "", kw, rest.
      split; [exact Hs |]. split; [exact Hkw |].
      split; [| auto].
      intros (p & k & d & r & Hp & _). destruct p, k; discriminate.
    + intros H.
      destruct (IH H)
        as (Hdec & pre & kw & rest & -> & Hkw & Hno & Hrest & Hfol).
      split; [exact Hdec |]. exists (String c pre), kw, rest.
      split; [reflexivity |]. split; [exact Hkw |].
      split; [| auto].
      intros (p & k & d & r & Hp & Hk & Hd).
      destruct p as [|c' p]; simpl in Hp.
      * assert (Hsome : exists g0, Str.match_here
                                     (String c (pre ++ kw ++ g ++ rest))
                                   = Some g0).
        { apply match_here_some.
          exists k, d, (r ++ kw ++ g ++ rest). split; [| auto].
          change (String c (pre ++ kw ++ g ++ rest))
            with (String c pre ++ kw ++ g ++ rest).
          rewrite Hp, !string_app_assoc. reflexivity. }
        destruct Hsome as [g0 Hg0]. congruence.
      * inversion Hp; subst c'. apply Hno. exists p, k, d, r. auto.
Qed.

Lemma captured_hint_is_first_witness :
  Str.match_retry_in "429: please Retry In 12.50s (not retry in 3)"
  = Some "12.50"
  /\ Str.decimal "12.50".
Proof.
  assert (H : Str.match_retry_in
                "429: please Retry In 12.50s (not retry in 3)"
              = Some "12.50") by (vm_compute; reflexivity).
  split; [exact H |].
  exact (proj1 (captured_hint_is_first _ _ H)).
Defined.

(** ** An operation that recovers *)

(** X8.  An operation that rejects with retryable errors, no more than
    [maxRetries] of them, and then fulfils with [v] is invoked once per
    error and once more, with one pause after each error, and the
    executor returns [v]; what the operation had in store after that is
    left untouched. *)
Theorem recovery_after_retryable_errors {T : Type} (final : Error) (v : T)
  (tail : list (T + Error)) (options : option RetryOptions.t)
  (es : list Error) :
  Forall (fun e => isRetryable e = true) es ->
  (Z.of_nat (List.length es) <= maxRetries_of options)%Z ->
  result (retryWithBackoff (scripted final) idle options
            (List.map inr es ++ inl v :: tail)%list)
  = Returned v
  /\ invocations (retryWithBackoff (scripted final) idle options
                    (List.map inr es ++ inl v :: tail)%list)
     = S (List.length es)
  /\ List.length
       (waits (events (retryWithBackoff (scripted final) idle options
                         (List.map inr es ++ inl v :: tail)%list)))
     = List.length es
  /\ world (retryWithBackoff (scripted final) idle options
              (List.map inr es ++ inl v :: tail)%list)
     = tail.
Proof.
  intros Hall Hle. rewrite retryWithBackoff_attempts.
  destruct (scripted_loop_succeeds final v tail (maxRetries_of options)
              (maxDelay_of options) (backoffMultiplier_of options) es Hall
              0%Z (initialDelay_of options) None Hle)
    as (Hres & Hcalls & Hwaits & Hworld).
  unfold invocations. rewrite Hcalls, length_app, length_map. simpl.
  split; [exact Hres |]. split; [lia |]. split; [exact Hwaits | exact Hworld].
Qed.

Lemma recovery_after_retryable_errors_witness :
  Forall (fun e => isRetryable e = true)
         [new_Error "429 Too Many Requests"; new_Error "503 busy"]
  /\ (Z.of_nat 2 <= maxRetries_of None)%Z
  /\ result (retryWithBackoff (scripted (new_Error "script is over")) idle
               None
               (List.map inr [new_Error "429 Too Many Requests";
                              new_Error "503 busy"]
                ++ inl 7%nat :: [inl 8%nat])%list)
     = Returned 7%nat.
Proof.
  assert (Hall : Forall (fun e => isRetryable e = true)
                        [new_Error "429 Too Many Requests";
                         new_Error "503 busy"])
    by (repeat constructor).
  assert (Hle : (Z.of_nat 2 <= maxRetries_of None)%Z)
    by (vm_compute; discriminate).
  split; [exact Hall |]. split; [exact Hle |].
  exact (proj1 (recovery_after_retryable_errors
                  (new_Error "script is over") 7%nat [inl 8%nat] None
                  [new_Error "429 Too Many Requests"; new_Error "503 busy"]
                  Hall Hle)).
Defined.

Lemma run_shape_witness :
  (0 <= maxRetries_of None)%Z
  /\ exists xs last,
       events (retryWithBackoff (scripted (new_Error "script is over")) idle
                 None
                 [inr (new_Error "429 Too Many Requests"); inl 7%nat])
       = (retried_attempts (maxRetries_of None) 1 xs ++ [Called last])%list.
Proof.
  assert (H : (0 <= maxRetries_of None)%Z) by (vm_compute; discriminate).
  split; [exact H |].
  destruct (run_shape (scripted (new_Error "script is over")) idle None
              [inr (new_Error "429 Too Many Requests"); inl 7%nat] H)
    as (xs & last & Hev & _).
  exists xs, last. exact Hev.
Defined.

(** ** No retry allowed *)

(** X9.  With [maxRetries = 0] the operation is invoked exactly once and
    the run has no notice and no pause.  A value is returned and a
    non-retryable error is rethrown as it is, but a retryable error is
    not: it is replaced by the error of line 47, "Max retries (0)
    reached. Last error: ..." *)
Theorem single_attempt_when_no_retry {T W : Type}
  (fn : W -> (T + Error) * W) (sleep : Num.number -> W -> W)
  (options : option RetryOptions.t) (w : W) :
  maxRetries_of options = 0%Z ->
  events (retryWithBackoff fn sleep options w) = [Called (fst (fn w))]
  /\ world (retryWithBackoff fn sleep options w) = snd (fn w)
  /\ result (retryWithBackoff fn sleep options w)
     = match fst (fn w) with
       | inl v => Returned v
       | inr e =>
           if isRetryable e
           then Threw (new_Error
                         ("Max retries (0) reached. Last error: "
                          ++ Str.of_optional (message e)))
           else Threw e
       end.
Proof.
  intros H0. rewrite retryWithBackoff_attempts, H0, attempts_step.
  destruct (Z_le_dec 0 0) as [_ | Hgt]; [| lia].
  destruct (fn w) as [[v | e] w1]; simpl; [auto |].
  destruct (isRetryable e); simpl; auto.
Qed.

Lemma single_attempt_when_no_retry_witness :
  maxRetries_of (Some (RetryOptions.make (Some 0%Z) None None None)) = 0%Z
  /\ events (retryWithBackoff (always_fails "503 busy") idle
               (Some (RetryOptions.make (Some 0%Z) None None None)) tt)
     = [Called (fst (always_fails "503 busy" tt))].
Proof.
  assert (H : maxRetries_of
                (Some (RetryOptions.make (Some 0%Z) None None None)) = 0%Z)
    by reflexivity.
  split; [exact H |].
  exact (proj1 (single_attempt_when_no_retry
                  (always_fails "503 busy") idle
                  (Some (RetryOptions.make (Some 0%Z) None None None)) tt H)).
Defined.

(** ** Reaching the first success *)

(** When the operation has retryable errors and then a value in store,
    and attempts enough are left for them, the loop makes these calls
    and returns the value. *)
Lemma loop_reaches_first_success {T W : Type} (fn : W -> (T + Error) * W)
  (sleep : Num.number -> W -> W) (maxRetries : Z)
  (maxDelay backoffMultiplier : Num.number) (v : T) (es : list Error) :
  Forall (fun e => isRetryable e = true) es ->
  forall attempt delay lastError w,
    (attempt + Z.of_nat (List.length es) <= maxRetries)%Z ->
    rejects_then_fulfils fn sleep maxDelay backoffMultiplier delay es v w ->
    calls (events (attempts fn sleep maxRetries maxDelay backoffMultiplier
                            attempt delay lastError w))
    = (List.map inr es ++ [inl v])%list
    /\ result (attempts fn sleep maxRetries maxDelay backoffMultiplier
                        attempt delay lastError w) = Returned v
    /\ exit_at (attempts fn sleep maxRetries maxDelay backoffMultiplier
                         attempt delay lastError w) = ReturnValue.
Proof.
  induction 1 as [|e es Hre Hall IH];
    intros attempt delay lastError w Hle Hop;
    rewrite attempts_step;
    (destruct (Z_le_dec attempt maxRetries) as [_|Hgt];
     [| simpl in Hle; lia]);
    simpl in Hop; destruct (fn w) as [[v'|e'] w1]; simpl in Hop.
  - inversion Hop; subst v'. simpl. auto.
  - discriminate.
  - destruct Hop as [Hop _]. discriminate.
  - destruct Hop as [Heq Hop]. inversion Heq; subst e'. rewrite Hre.
    destruct (Z.eqb_spec attempt maxRetries) as [->|Hne];
      [simpl in Hle; lia |].
    destruct (IH (attempt + 1)%Z
                 (nextDelay delay backoffMultiplier maxDelay) (Some e)
                 (sleep (waitTime delay maxDelay e) w1))
      as (Hcalls & Hres & Hexit); [simpl in Hle; lia | exact Hop |].
    simpl. rewrite Hcalls. auto.
Qed.

(** A call of the loop that fulfils is explained by what the operation
    had in store: retryable errors, as many as the calls before it, and
    then the value. *)
Lemma loop_first_success_explained {T W : Type}
  (fn : W -> (T + Error) * W) (sleep : Num.number -> W -> W)
  (maxRetries : Z) (maxDelay backoffMultiplier : Num.number) (v : T)
  attempt delay lastError w k :
  nth_error (calls (events (attempts fn sleep maxRetries maxDelay
                                     backoffMultiplier
                                     attempt delay lastError w))) k
  = Some (inl v) ->
  exists es,
    List.length es = k
    /\ Forall (fun e => isRetryable e = true) es
    /\ rejects_then_fulfils fn sleep maxDelay backoffMultiplier delay es v w.
Proof.
  revert attempt delay lastError w k.
  apply (attempts_ind fn sleep maxRetries maxDelay backoffMultiplier
           (fun _ delay _ w r =>
              forall k,
                nth_error (calls (events r)) k = Some (inl v) ->
                exists es,
                  List.length es = k
                  /\ Forall (fun e => isRetryable e = true) es
                  /\ rejects_then_fulfils fn sleep maxDelay backoffMultiplier
                       delay es v w)); simpl.
  - intros attempt delay lastError w _ [|k]; discriminate.
  - intros attempt delay lastError w v' w1 _ Hfn [|[|k]] Hk;
      try discriminate.
    inversion Hk; subst v'. exists []. simpl. rewrite Hfn. auto.
  - intros attempt delay lastError w error w1 _ _ _ [|[|k]]; discriminate.
  - intros delay lastError w error w1 _ _ [|[|k]]; discriminate.
  - intros attempt delay lastError w error w1 r _ Hfn Hre _ IH [|k] Hk;
      simpl in Hk; [discriminate |].
    destruct (IH k Hk) as (es & Hlen & Hall & Hop).
    exists (error :: es). simpl. rewrite Hfn. simpl.
    split; [now rewrite Hlen |]. split; [now constructor |]. auto.
Qed.

(** C1.  Under a configuration whose [maxRetries] is not negative, the
    operation is invoked at most [maxRetries + 1] times.  When the
    operation has [k <= maxRetries] retryable errors and then the value
    [v] in store, so that its first success is at the attempt of index
    [k], the executor reaches that attempt: it invokes the operation
    exactly [k + 1] times, with these outcomes, and returns [v].
    Conversely the attempt of index [k] of a run fulfils only in this
    way: the calls before it rejected with retryable errors, it is the
    last call, and its value is returned. *)
Theorem invocations_within_budget {T W : Type} (fn : W -> (T + Error) * W)
  (sleep : Num.number -> W -> W) (options : option RetryOptions.t) (w : W) :
  (0 <= maxRetries_of options)%Z ->
  (Z.of_nat (invocations (retryWithBackoff fn sleep options w))
   <= maxRetries_of options + 1)%Z
  /\ (forall (es : list Error) (v : T),
        rejects_then_fulfils fn sleep (maxDelay_of options)
          (backoffMultiplier_of options) (initialDelay_of options) es v w ->
        Forall (fun e => isRetryable e = true) es ->
        (Z.of_nat (List.length es) <= maxRetries_of options)%Z ->
        calls (events (retryWithBackoff fn sleep options w))
        = (List.map inr es ++ [inl v])%list
        /\ invocations (retryWithBackoff fn sleep options w)
           = (List.length es + 1)%nat
        /\ result (retryWithBackoff fn sleep options w) = Returned v
        /\ exit_at (retryWithBackoff fn sleep options w) = ReturnValue)
  /\ (forall (k : nat) (v : T),
        nth_error (calls (events (retryWithBackoff fn sleep options w))) k
        = Some (inl v) ->
        (Z.of_nat k <= maxRetries_of options)%Z
        /\ invocations (retryWithBackoff fn sleep options w) = (k + 1)%nat
        /\ result (retryWithBackoff fn sleep options w) = Returned v
        /\ exists es,
             List.length es = k
             /\ Forall (fun e => isRetryable e = true) es
             /\ rejects_then_fulfils fn sleep (maxDelay_of options)
                  (backoffMultiplier_of options) (initialDelay_of options)
                  es v w).
Proof.
  intros Hpos.
  pose proof (invocations_bound fn sleep options w) as Hbound.
  split; [lia |]. split.
  - intros es v Hop Hall Hle.
    rewrite retryWithBackoff_attempts. unfold invocations.
    destruct (loop_reaches_first_success fn sleep (maxRetries_of options)
                (maxDelay_of options) (backoffMultiplier_of options) v es
                Hall 0%Z (initialDelay_of options) None w Hle Hop)
      as (Hcalls & Hres & Hexit).
    rewrite Hcalls, length_app, length_map. simpl. auto.
  - intros k v Hk. unfold invocations in *.
    rewrite retryWithBackoff_attempts in *.
    destruct (loop_success_last _ _ _ _ _ _ _ _ _ _ _ Hk)
      as (Hlen & Hres & _).
    rewrite Hlen in *.
    split; [lia |]. split; [lia |]. split; [exact Hres |].
    exact (loop_first_success_explained _ _ _ _ _ _ _ _ _ _ _ Hk).
Qed.

(** An error by rate limiting followed by a value, under the default
    configuration: two invocations, and the value is returned. *)
Lemma invocations_within_budget_witness :
  (0 <= maxRetries_of None)%Z
  /\ rejects_then_fulfils (scripted (new_Error "script is over")) idle
       (maxDelay_of None) (backoffMultiplier_of None) (initialDelay_of None)
       [new_Error "429 Too Many Requests"] 7%nat
       [inr (new_Error "429 Too Many Requests"); inl 7%nat]
  /\ Forall (fun e => isRetryable e = true)
            [new_Error "429 Too Many Requests"]
  /\ (Z.of_nat (List.length [new_Error "429 Too Many Requests"])
      <= maxRetries_of None)%Z
  /\ invocations
       (retryWithBackoff (scripted (new_Error "script is over")) idle None
          [inr (new_Error "429 Too Many Requests"); inl 7%nat])
     = 2%nat
  /\ result
       (retryWithBackoff (scripted (new_Error "script is over")) idle None
          [inr (new_Error "429 Too Many Requests"); inl 7%nat])
     = Returned 7%nat.
Proof.
  assert (H : (0 <= maxRetries_of None)%Z) by (vm_compute; discriminate).
  assert (Hop : rejects_then_fulfils
                  (scripted (new_Error "script is over")) idle
                  (maxDelay_of None) (backoffMultiplier_of None)
                  (initialDelay_of None)
                  [new_Error "429 Too Many Requests"] 7%nat
                  [inr (new_Error "429 Too Many Requests"); inl 7%nat])
    by (split; reflexivity).
  assert (Hall : Forall (fun e => isRetryable e = true)
                        [new_Error "429 Too Many Requests"])
    by (repeat constructor).
  assert (Hle : (Z.of_nat (List.length [new_Error "429 Too Many Requests"])
                 <= maxRetries_of None)%Z) by (vm_compute; discriminate).
  destruct (proj1 (proj2 (invocations_within_budget
                            (scripted (new_Error "script is over")) idle None
                            [inr (new_Error "429 Too Many Requests");
                             inl 7%nat] H))
              [new_Error "429 Too Many Requests"] 7%nat Hop Hall Hle)
    as (_ & Hinv & Hres & _).
  repeat (split; [assumption |]). exact Hres.
Defined.

(** ** The pause after a hint *)

(** The capture of the expression is the first hint of the message,
    taken whole. *)
Lemma capture_first_hint (m g : string) :
  Str.match_retry_in m = Some g ->
  Str.decimal g
  /\ exists pre kw rest,
       m = pre ++ kw ++ g ++ rest
       /\ Str.toLowerCase kw = "retry in "
       /\ ~ has_retry_hint pre
       /\ Str.no_leading_digit rest
       /\ (Str.all_digits g = true -> no_fraction_follows rest).
Proof.
  intros Hg.
  destruct (retry_hint_capture m g Hg) as (Hdec & _).
  split; [exact Hdec |].
  revert Hg. induction m as [|c m IH]; rewrite match_retry_in_unfold.
  - simpl. discriminate.
  - destruct (Str.match_here (String c m)) as [g'|] eqn:Hhere.
    + intros H. inversion H; subst g'. unfold Str.match_here in Hhere.
      destruct (Str.match_literal_i "retry in " (String c m))
        as [tail|] eqn:Hlit; [| discriminate].
      apply match_literal_i_spec in Hlit as (kw & Hs & Hkw).
      destruct (match_number_capture_greedy _ _ Hhere)
        as (rest & -> & Hrest & Hfol).
      exists "", kw, rest.
      split; [exact Hs |]. split; [exact Hkw |]. split; [| auto].
      intros (p & k & d & r & Hp & _). destruct p, k; discriminate.
    + intros H.
      destruct (IH H) as (pre & kw & rest & -> & Hkw & Hno & Hrest & Hfol).
      exists (String c pre), kw, rest.
      split; [reflexivity |]. split; [exact Hkw |]. split; [| auto].
      intros (p & k & d & r & Hp & Hk & Hd).
      destruct p as [|c' p]; simpl in Hp.
      * assert (Hsome : exists g0,
                   Str.match_here (String c (pre ++ kw ++ g ++ rest))
                   = Some g0).
        { apply match_here_some.
          exists k, d, (r ++ kw ++ g ++ rest). split; [| auto].
          change (String c (pre ++ kw ++ g ++ rest))
            with (String c pre ++ kw ++ g ++ rest).
          rewrite Hp, !string_app_assoc. reflexivity. }
        destruct Hsome as [g0 Hg0]. congruence.
      * inversion Hp; subst c'. apply Hno. exists p, k, d, r. auto.
Qed.

(** [Math.min(a, b)] is [b] when [b < a]. *)
Lemma Math_min_right (a b : Num.number) :
  SFltb b a = true -> Num.Math_min a b = b.
Proof.
  intros Hlt. unfold Num.Math_min.
  destruct a as [[]|sa| |sa ma ea]; destruct b as [[]|sb| |sb mb eb];
    try discriminate; try reflexivity; now rewrite Hlt.
Qed.

(** C5, as stated, fails: for the hint "retry in 2.007" the number read
    as seconds is 2007 milliseconds exactly, a whole number already,
    while the code pauses for 2008: the double nearest to 2.007 times
    1000 lies just above 2007 and [Math.ceil] takes it to 2008.  The cap
    of 60000 plays no part. *)
Lemma hint_wait_is_not_exact :
  retryAfterMatch (new_Error "429: retry in 2.007s") = Some "2.007"
  /\ spec_hint_millis "2.007" = 2007%Z
  /\ waits (events
              (retryWithBackoff (scripted (new_Error "script is over")) idle
                 None
                 [inr (new_Error "429: retry in 2.007s"); inl 1%nat]))
     = [Num.of_Z 2008]
  /\ SFeqb (Num.of_Z 2008) (Num.of_Z (spec_hint_millis "2.007")) = false
  /\ Num.leb (Num.of_Z 2008) (maxDelay_of None) = true.
Proof. repeat split; vm_compute; reflexivity. Qed.

(** C5, amended.  When the call of index [i] rejects with an error whose
    message shows a retry hint, the expression matches and captures the
    first hint of the message, whole: a decimal numeral [g] right after
    the first words "retry in " (in any mix of cases) that a digit
    follows.  The pause [wt], which follows the call and its notice at
    once, is the double nearest to [g], multiplied by 1000 as doubles
    are, taken to the next whole number by [Math.ceil] and capped by
    [Math.min] at [maxDelay], whatever the delay state is: it never
    exceeds [maxDelay], is [maxDelay] when the hint asks for more and is
    what the hint asks for when that is at most [maxDelay].  So 2.5
    gives 2500, 0.0004 gives 1, 2.007 gives 2008 (the product lies just
    above 2007) and 2.5000000000000001 gives 2500 (the nearest double is
    2.5); the message "rate limit exceeded, retry in 2.5 seconds" gives
    the capture "2.5" and a pause of 2500 ms when [maxDelay] allows it.
    The hint serves that pause only: a pause that follows an error
    without a hint is the delay state of its own index, capped. *)
Theorem retry_hint_sets_wait {T W : Type} (fn : W -> (T + Error) * W)
  (sleep : Num.number -> W -> W) (options : option RetryOptions.t) (w : W)
  (i : nat) (e : Error) (m : string) (wt : Num.number) :
  nth_error (calls (events (retryWithBackoff fn sleep options w))) i
  = Some (inr e) ->
  nth_error (waits (events (retryWithBackoff fn sleep options w))) i
  = Some wt ->
  message e = Some m ->
  has_retry_hint m ->
  exists g,
    retryAfterMatch e = Some g
    /\ Str.decimal g
    /\ (exists pre kw rest,
          m = pre ++ kw ++ g ++ rest
          /\ Str.toLowerCase kw = "retry in "
          /\ ~ has_retry_hint pre
          /\ Str.no_leading_digit rest
          /\ (Str.all_digits g = true -> no_fraction_follows rest))
    /\ (exists before k x later,
          events (retryWithBackoff fn sleep options w)
          = (before ++ Called (inr e)
                    :: Logged k (maxRetries_of options) wt x
                    :: Slept wt :: later)%list
          /\ List.length (calls before) = i)
    /\ wt = Num.Math_min
              (Num.Math_ceil (Num.mul (Str.parseFloat g) (Num.of_Z 1000)))
              (maxDelay_of options)
    /\ (wt = Num.NaN \/ Num.leb wt (maxDelay_of options) = true)
    /\ (SFltb (maxDelay_of options)
              (Num.Math_ceil (Num.mul (Str.parseFloat g) (Num.of_Z 1000)))
        = true ->
        wt = maxDelay_of options)
    /\ (Num.leb (Num.Math_ceil (Num.mul (Str.parseFloat g) (Num.of_Z 1000)))
                (maxDelay_of options) = true ->
        (forall s,
            Num.Math_ceil (Num.mul (Str.parseFloat g) (Num.of_Z 1000))
            <> S754_zero s) ->
        wt = Num.Math_ceil (Num.mul (Str.parseFloat g) (Num.of_Z 1000)))
    /\ (Num.Math_ceil (Num.mul (Str.parseFloat "2.5") (Num.of_Z 1000))
        = Num.of_Z 2500
        /\ Num.Math_ceil (Num.mul (Str.parseFloat "0.0004") (Num.of_Z 1000))
           = Num.of_Z 1
        /\ Num.Math_ceil (Num.mul (Str.parseFloat "2.007") (Num.of_Z 1000))
           = Num.of_Z 2008
        /\ Num.Math_ceil
             (Num.mul (Str.parseFloat "2.5000000000000001") (Num.of_Z 1000))
           = Num.of_Z 2500)
    /\ (m = "rate limit exceeded, retry in 2.5 seconds" ->
        g = "2.5"
        /\ wt = Num.Math_min (Num.of_Z 2500) (maxDelay_of options)
        /\ (Num.leb (Num.of_Z 2500) (maxDelay_of options) = true ->
            wt = Num.of_Z 2500))
    /\ (forall j e' wt',
          nth_error (calls (events (retryWithBackoff fn sleep options w))) j
          = Some (inr e') ->
          nth_error (waits (events (retryWithBackoff fn sleep options w))) j
          = Some wt' ->
          retryAfterMatch e' = None ->
          wt' = Num.Math_min (delay_at options j) (maxDelay_of options)).
Proof.
  rewrite retryWithBackoff_attempts. intros Hc Hw Hm Hhint.
  apply retry_hint_present_iff in Hhint as [g Hg].
  assert (Hg' : retryAfterMatch e = Some g)
    by (unfold retryAfterMatch; now rewrite Hm).
  assert (Hwt := loop_wait_schedule _ _ _ _ _ _ _ _ _ _ _ _ Hc Hw).
  unfold waitTime in Hwt. rewrite Hg' in Hwt.
  destruct (capture_first_hint m g Hg) as (Hdec & Hplace).
  exists g. split; [exact Hg' |]. split; [exact Hdec |].
  split; [exact Hplace |]. split.
  { destruct (loop_wait_follows_call _ _ _ _ _ _ _ _ _ _ _ Hw)
      as (before & e0 & k & later & Hev & Hc0 & Hlen).
    assert (e0 = e) as -> by congruence.
    exists before, k, (option_map (substring 0 100) (message e)), later.
    auto. }
  split; [exact Hwt |].
  split; [rewrite Hwt; apply Math_min_le |].
  split; [intros Hlt; rewrite Hwt; now apply Math_min_right |].
  split; [intros Hle Hnz; rewrite Hwt; now apply Math_min_left |].
  split; [repeat split; vm_compute; reflexivity |].
  split.
  - intros ->. vm_compute in Hg. inversion Hg; subst g.
    assert (Hval : Num.Math_ceil
                     (Num.mul (Str.parseFloat "2.5") (Num.of_Z 1000))
                   = Num.of_Z 2500) by (vm_compute; reflexivity).
    rewrite Hval in Hwt.
    split; [reflexivity |]. split; [exact Hwt |].
    intros Hle. rewrite Hwt. apply Math_min_left; [exact Hle |].
    intros s. vm_compute. discriminate.
  - intros j e' wt' Hc' Hw' Hnone.
    assert (Hwt' := loop_wait_schedule _ _ _ _ _ _ _ _ _ _ _ _ Hc' Hw').
    unfold waitTime in Hwt'. rewrite Hnone in Hwt'. exact Hwt'.
Qed.

(** The message "rate limit exceeded, retry in 2.5 seconds" under
    [maxDelay = 2000], followed by a value: the pause is 2000, the hint
    asking for more. *)
Lemma retry_hint_sets_wait_witness :
  has_retry_hint "rate limit exceeded, retry in 2.5 seconds"
  /\ nth_error
       (waits (events
                 (retryWithBackoff (scripted (new_Error "script is over"))
                    idle
                    (Some (RetryOptions.make None None
                             (Some (Num.of_Z 2000)) None))
                    [inr (new_Error
                            "rate limit exceeded, retry in 2.5 seconds");
                     inl 1%nat])))
       0
     = Some (Num.of_Z 2000)
  /\ retryAfterMatch (new_Error "rate limit exceeded, retry in 2.5 seconds")
     = Some "2.5"
  /\ Num.of_Z 2000
     = maxDelay_of (Some (RetryOptions.make None None
                            (Some (Num.of_Z 2000)) None)).
Proof.
  assert (Hc :
            nth_error
              (calls (events
                        (retryWithBackoff
                           (scripted (new_Error "script is over")) idle
                           (Some (RetryOptions.make None None
                                    (Some (Num.of_Z 2000)) None))
                           [inr (new_Error
                                   "rate limit exceeded, retry in 2.5 seconds");
                            inl 1%nat])))
              0
            = Some (inr (new_Error
                           "rate limit exceeded, retry in 2.5 seconds")))
    by (vm_compute; reflexivity).
  assert (Hw :
            nth_error
              (waits (events
                        (retryWithBackoff
                           (scripted (new_Error "script is over")) idle
                           (Some (RetryOptions.make None None
                                    (Some (Num.of_Z 2000)) None))
                           [inr (new_Error
                                   "rate limit exceeded, retry in 2.5 seconds");
                            inl 1%nat])))
              0
            = Some (Num.of_Z 2000))
    by (vm_compute; reflexivity).
  assert (Hhint : has_retry_hint "rate limit exceeded, retry in 2.5 seconds").
  { exists "rate limit exceeded, ", "retry in ", "2"%char, ".5 seconds".
    repeat split; reflexivity. }
  split; [exact Hhint |]. split; [exact Hw |].
  destruct (retry_hint_sets_wait
              (scripted (new_Error "script is over")) idle
              (Some (RetryOptions.make None None (Some (Num.of_Z 2000)) None))
              [inr (new_Error "rate limit exceeded, retry in 2.5 seconds");
               inl 1%nat]
              0 (new_Error "rate limit exceeded, retry in 2.5 seconds")
              "rate limit exceeded, retry in 2.5 seconds"
              (Num.of_Z 2000) Hc Hw eq_refl Hhint)
    as (g & Hg & _ & _ & _ & _ & _ & Hcap & _ & _ & Hmsg & _).
  destruct (Hmsg eq_refl) as (-> & _ & _).
  split; [exact Hg |].
  apply Hcap. vm_compute. reflexivity.
Defined.
